(** * Agentik v4: discovery helpers, search providers and the parallel
      audit runner

    A shallow embedding of [scripts/discover.py] and
    [scripts/run_parallel.py], followed by the properties proved of it.

    Part I holds the program: every function of the two scripts that the
    properties are about, the model of what lies outside the process (the
    search services, the clock, the file system, the process table), and the
    vocabulary in which the properties are stated.  Part II holds the
    lemmas and theorems.

    Python [str] values are modelled as [string]: sequences of code points
    below 256, read as Latin-1, so that [str.strip] and [str.lower] act on
    them exactly as they do in Python on the same code points.  Python [int]
    is [Z]; the floats of the backoff policy are modelled by rationals (see
    [Backoff]). *)

From Stdlib Require Import ZArith QArith Qminmax Lqa Lia.
From Stdlib Require Import Strings.String Strings.Ascii.
From stdpp Require Import base option list gmap strings sorting.

Local Open Scope string_scope.
Local Arguments String.append !_ _ / : simpl nomatch.
Local Arguments ascii_dec : simpl never.

(** * Part I: the program *)

(** ** Python string primitives *)

Module PyStr.

(** [str.isspace] on one code point below 256: TAB..CR, FS..US, SPACE,
    NEL (0x85) and NBSP (0xA0). *)
Definition is_space (c : ascii) : bool :=
  let n := N_of_ascii c in
  ((9 <=? n) && (n <=? 13) || (28 <=? n) && (n <=? 32)
   || (n =? 133) || (n =? 160))%N.

(** [str.lower] on one code point below 256: A..Z and the Latin-1 capitals
    0xC0..0xDE (without the multiplication sign 0xD7) move up by 32. *)
Definition lower_char (c : ascii) : ascii :=
  let n := N_of_ascii c in
  if ((65 <=? n) && (n <=? 90)
      || (192 <=? n) && (n <=? 222) && negb (n =? 215))%N
  then ascii_of_N (n + 32) else c.

Fixpoint lower (s : string) : string :=
  match s with
  | EmptyString => EmptyString
  | String c s' => String (lower_char c) (lower s')
  end.

Fixpoint lstrip (s : string) : string :=
  match s with
  | EmptyString => EmptyString
  | String c s' => if is_space c then lstrip s' else s
  end.

Fixpoint rstrip (s : string) : string :=
  match s with
  | EmptyString => EmptyString
  | String c s' =>
      match rstrip s' with
      | EmptyString => if is_space c then EmptyString else String c EmptyString
      | r => String c r
      end
  end.

(** [s.strip()] *)
Definition strip (s : string) : string := rstrip (lstrip s).

(** [s[n:]] for [0 <= n] *)
Fixpoint drop (n : nat) (s : string) : string :=
  match n, s with
  | O, _ => s
  | S _, EmptyString => EmptyString
  | S n', String _ s' => drop n' s'
  end.

(** [s.startswith(p)] *)
Definition startswith (s p : string) : bool := String.prefix p s.

(** [s.split(sep, 1)] for a non-empty separator: cut at the leftmost
    occurrence of [sep], if there is one. *)
Fixpoint cut (sep s : string) : option (string * string) :=
  if String.prefix sep s then Some (EmptyString, drop (String.length sep) s)
  else match s with
       | EmptyString => None
       | String c s' =>
           match cut sep s' with
           | Some (a, b) => Some (String c a, b)
           | None => None
           end
       end.

Definition split1 (sep s : string) : list string :=
  match cut sep s with
  | Some (a, b) => [a; b]
  | None => [s]
  end.

(** [parts[0]] and [parts[-1]] on the non-empty list a split returns; the
    default is never reached. *)
Definition first_part (parts : list string) : string := hd EmptyString parts.
Definition last_part (parts : list string) : string := List.last parts EmptyString.

(** [c in s] *)
Fixpoint mem (c : ascii) (s : string) : bool :=
  match s with
  | EmptyString => false
  | String c' s' => if ascii_dec c c' then true else mem c s'
  end.

End PyStr.

(** ** Helpers of [scripts/discover.py] *)

(** [(raw or "")] is [raw] itself on a [str]. *)
Definition normalize_domain (raw : string) : string :=
  let d := PyStr.strip raw in
  let d := PyStr.last_part (PyStr.split1 "//" d) in
  let d := PyStr.first_part (PyStr.split1 "/" d) in
  let d := PyStr.first_part (PyStr.split1 ":" d) in
  let d := PyStr.lower d in
  if PyStr.startswith d "www." then PyStr.drop 4 d else d.

(** [sorted({normalize_domain(d) for d in domains if normalize_domain(d)})]:
    the set comprehension is a [gset]; [sorted] orders strings by code
    point, which is [String.le]. *)
Definition unique_sorted (domains : list string) : list string :=
  merge_sort String.le
    (elements (list_to_set
       (filter (fun d => d <> "") (normalize_domain <$> domains)) : gset string)).

(** *** The steps of [normalize_domain], as relations *)

Module Normalize.
Import PyStr.






(** What survives [normalize_domain]: no slash, no colon, no capital. *)
Definition clean (s : string) : Prop :=
  mem "/" s = false /\ mem ":" s = false /\ lower s = s.

Definition strip_www (d : string) : string :=
  if startswith d "www." then drop 4 d else d.

End Normalize.

(** *** Validity of a domain *)

Module Validity.

Definition is_digit (c : ascii) : bool :=
  let n := N_of_ascii c in ((48 <=? n) && (n <=? 57))%N.

Fixpoint all_chars (p : ascii -> bool) (s : string) : bool :=
  match s with
  | EmptyString => true
  | String c s' => p c && all_chars p s'
  end.

(** The dot-separated labels of a host name. *)
Fixpoint labels (s : string) : list string :=
  match s with
  | EmptyString => [EmptyString]
  | String c s' =>
      if Ascii.eqb c "." then EmptyString :: labels s'
      else match labels s' with
           | l :: ls => String c l :: ls
           | [] => [String c EmptyString]
           end
  end.

Definition numeric (s : string) : bool := all_chars is_digit s.

Definition is_ipv4_literal (d : string) : bool :=
  (List.length (labels d) =? 4)%nat
  && forallb (fun l => negb (String.eqb l "") && numeric l) (labels d).

(** Modelled from the spec: [is_valid_domain], which [tests/test_discover.py]
    imports from [scripts.discover], is not defined in
    [scripts/discover.py].  "Rejects: empty string, bare literal IPv4
    addresses, localhost, strings over 253 characters, strings without both
    a dot and a non-numeric final label." *)
Definition is_valid_domain (d : string) : bool :=
  negb (String.eqb d "")
  && negb (is_ipv4_literal d)
  && negb (String.eqb d "localhost")
  && (String.length d <=? 253)%nat
  && (2 <=? List.length (labels d))%nat
  && negb (numeric (List.last (labels d) "")).

End Validity.

(** The input of the repository's test of the validity filter. *)
Definition filter_test_input : list string :=
  ["https://valid.com"; "https://localhost"; "http://127.0.0.1";
   "invalid"; "also-valid.org"].

(** ** [backoff_delays] *)

(** The delays are Python floats.  They are modelled by rationals kept in
    lowest terms: on finite floats the loop only doubles and takes minima;
    doubling is exact unless it overflows, and an overflowed product is
    replaced by [max_s] by the [min], as the exact product is.  Python's
    [min(max_s, x)] returns [x] when [x < max_s] and [max_s] otherwise, which
    is [Qmin max_s x]. *)
Module Backoff.
Local Open Scope Q_scope.

(** The loop body, [n] iterations left:
    [delays.append(cur); cur = min(max_s, cur * 2.0)] *)
Fixpoint backoff_loop (max_s : Q) (n : nat) (cur : Q) : list Q :=
  match n with
  | O => []
  | S n' => cur :: backoff_loop max_s n' (Qmin max_s (Qred (cur * 2)))
  end.

Definition backoff_delays (base max_s : Q) (attempts : Z) : list Q :=
  backoff_loop max_s (Z.to_nat (Z.max 0 (attempts - 1))) base.

(** [2^k], for the closed form of the delays *)
Definition pow2 (k : nat) : Q := inject_Z (2 ^ Z.of_nat k).

End Backoff.

(** ** Search providers *)

Module Providers.
Import Backoff.

(** *** The world outside the process *)

(** One entry of the [items] array of a Custom Search response.  A missing
    key and an empty string are both falsy for [or]; [BadItem] is an entry
    on which [.get] raises. *)
Inductive cse_item :=
| Item (link formattedUrl : option string)
| BadItem.

(** What [requests.get] and the subsequent [resp.json()] do. *)
Inductive http_outcome :=
| Response (code : Z) (items : option (list cse_item))
    (* [items = None]: [resp.json()] raises *)
| NetworkError   (* requests.Timeout, requests.ConnectionError, socket.timeout *)
| OtherError.    (* any other exception raised by [requests.get] *)

(** One record yielded by [ddgs.text]. *)
Record ddg_record := { href : option string; rlink : option string; rurl : option string }.

(** One run of [DDGS().text(...)]: the records it yields, and whether it then
    raises instead of finishing. *)
Record ddg_run := { yielded : list ddg_record; raises : bool }.

Record environment := {
  http : nat -> http_outcome;        (* the n-th call of [requests.get] *)
  ddgs_available : bool;             (* [DDGS is not None] *)
  ddgs_text : nat -> ddg_run;        (* the n-th run of [ddgs.text] *)
  output_writable : bool             (* can the output directory be made and written *)
}.

Inductive event :=
| Slept (seconds : Q)                (* [time.sleep] of a backoff or crawl delay *)
| Requested                          (* a call of [requests.get] *)
| Searched                           (* a run of [ddgs.text] *)
| MadeDirs                           (* [Path.mkdir(parents=True, exist_ok=True)] *)
| Wrote (lines : list string).       (* the output file, written and closed *)

Record world := {
  http_calls : nat;
  ddgs_runs : nat;
  trace : list event                 (* oldest first *)
}.

Definition world0 : world := {| http_calls := 0; ddgs_runs := 0; trace := [] |}.

Definition log (e : event) (w : world) : world :=
  {| http_calls := http_calls w; ddgs_runs := ddgs_runs w; trace := trace w ++ [e] |}.

(** [time.sleep(d)]: raises [ValueError] on a negative argument. *)
Definition time_sleep (d : Q) (w : world) : option world :=
  if Qle_bool 0 d then Some (log (Slept d) w) else None.

Definition requests_get (env : environment) (w : world) : http_outcome * world :=
  (http env (http_calls w),
   log Requested {| http_calls := S (http_calls w); ddgs_runs := ddgs_runs w;
                    trace := trace w |}).

Definition run_ddgs_text (env : environment) (w : world) : ddg_run * world :=
  (ddgs_text env (ddgs_runs w),
   log Searched {| http_calls := http_calls w; ddgs_runs := S (ddgs_runs w);
                   trace := trace w |}).

(** *** Python values *)

(** [a or b] on optional strings: the first truthy one. *)
Definition truthy (o : option string) : option string :=
  match o with
  | Some s => if String.eqb s "" then None else Some s
  | None => None
  end.

Definition py_or (a b : option string) : option string :=
  match truthy a with Some s => Some s | None => truthy b end.

(** [l[:m]] *)
Definition py_take {A} (m : Z) (l : list A) : list A :=
  if (0 <=? m)%Z then take (Z.to_nat m) l
  else take (length l - Z.to_nat (- m)) l.

Definition len {A} (l : list A) : Z := Z.of_nat (length l).

(** [delays[idx]] for an index already checked to be in range. *)
Definition delay_at (delays : list Q) (idx : Z) : Q :=
  default 0%Q (delays !! Z.to_nat idx).

(** *** [BaseProvider] *)

Record BaseProvider := {
  name : string;
  queries_made : Z;
  daily_quota_threshold : Z;
  retry_attempts : Z;
  backoff_base_seconds : Q;
  backoff_max_seconds : Q
}.

Definition can_continue (p : BaseProvider) : bool :=
  (queries_made p <? daily_quota_threshold p)%Z.

Definition _delays (p : BaseProvider) : list Q :=
  backoff_delays (backoff_base_seconds p) (backoff_max_seconds p) (retry_attempts p).

(** [self.queries_made += 1] *)
Definition count_query (p : BaseProvider) : BaseProvider :=
  {| name := name p;
     queries_made := queries_made p + 1;
     daily_quota_threshold := daily_quota_threshold p;
     retry_attempts := retry_attempts p;
     backoff_base_seconds := backoff_base_seconds p;
     backoff_max_seconds := backoff_max_seconds p |}.

(** How a call ends: with a value, or with an exception that leaves it. *)
Inductive outcome (A : Type) :=
| Returned (a : A)
| Raised (exn : string).
Arguments Returned {A} a.
Arguments Raised {A} exn.

(** How one retry loop ends: by [break], or by an exception that leaves
    [query]. *)
Inductive loop_end :=
| Broke (results : list string)
| Escaped (exn : string).

(** *** [GoogleCSEProvider] *)

Record GoogleCSEProvider := {
  g_base : BaseProvider;
  api_key : string;
  cx : string
}.

(** The provider after [self.queries_made += 1]. *)
Definition g_counted (g : GoogleCSEProvider) : GoogleCSEProvider :=
  {| g_base := count_query (g_base g); api_key := api_key g; cx := cx g |}.

(** [for it in items: link = it.get("link") or it.get("formattedUrl") ...];
    an entry on which [.get] raises ends the page with what was appended so
    far (the exception is caught by [except Exception], which breaks). *)
Fixpoint append_links (results : list string) (items : list cse_item) : list string :=
  match items with
  | [] => results
  | Item l f :: rest =>
      match py_or l f with
      | Some link => append_links (results ++ [link]) rest
      | None => append_links results rest
      end
  | BadItem :: _ => results
  end.

(** The inner [while True] of [GoogleCSEProvider.query]; [fuel] bounds the
    number of requests, the loop itself has no bound. *)
Fixpoint google_attempts (fuel : nat) (env : environment) (delays : list Q)
    (attempt : Z) (results : list string) (w : world) : option (loop_end * world) :=
  match fuel with
  | O => None
  | S fuel' =>
      let attempt := (attempt + 1)%Z in
      let '(resp, w) := requests_get env w in
      let idx := Z.min (attempt - 1) (len delays - 1) in
      let in_range := ((0 <=? idx) && (idx <? len delays))%Z in
      match resp with
      | Response code items =>
          if (code =? 200)%Z then
            match items with
            | Some its => Some (Broke (append_links results its), w)
            | None => Some (Broke results, w)
            end
          else if ((code =? 429) || (code =? 503))%Z then
            if in_range then
              match time_sleep (delay_at delays idx) w with
              | Some w' => google_attempts fuel' env delays attempt results w'
              | None => Some (Broke results, w)  (* ValueError inside [try] *)
              end
            else Some (Broke results, w)
          else Some (Broke results, w)
      | NetworkError =>
          if in_range then
            match time_sleep (delay_at delays idx) w with
            | Some w' => google_attempts fuel' env delays attempt results w'
            | None => Some (Escaped "ValueError", w)  (* raised in the handler *)
            end
          else Some (Broke results, w)
      | OtherError => Some (Broke results, w)
      end
  end.

(** The outer [while len(results) < max_results and start_index <= 91];
    [pages] bounds its iterations (ten are enough, see [google_query]).  The
    request carries no [start] parameter, so every round asks for the first
    page again; what comes back is the next outcome of the environment. *)
Fixpoint google_pages (pages fuel : nat) (env : environment) (delays : list Q)
    (max_results start_index : Z) (results : list string) (w : world)
    : option (loop_end * world) :=
  if ((len results <? max_results) && (start_index <=? 91))%Z then
    match pages with
    | O => None
    | S pages' =>
        match google_attempts fuel env delays 0 results w with
        | None => None
        | Some (Escaped e, w') => Some (Escaped e, w')
        | Some (Broke results', w') =>
            if (max_results <=? len results')%Z then Some (Broke results', w')
            else google_pages pages' fuel env delays max_results
                   (start_index + 10) results' w'
        end
    end
  else Some (Broke results, w).

(** [GoogleCSEProvider.query].  The rate limiter only sleeps (for a positive
    time), so it leaves no mark on the state modelled here. *)
Definition google_query (fuel : nat) (env : environment) (g : GoogleCSEProvider)
    (w : world) (keyword : string) (max_results : Z)
    : option (outcome (list string) * GoogleCSEProvider * world) :=
  if negb (can_continue (g_base g)) then Some (Returned [], g, w)
  else if negb (negb (String.eqb (api_key g) "") && negb (String.eqb (cx g) ""))
  then Some (Returned [], g_counted g, w)
  else
    match google_pages 10 fuel env (_delays (g_base g)) max_results 1 [] w with
    | None => None
    | Some (Broke results, w') =>
        Some (Returned (py_take max_results results), g_counted g, w')
    | Some (Escaped e, w') => Some (Raised e, g, w')
    end.

(** *** [DuckDuckGoProvider] *)

Record DuckDuckGoProvider := {
  d_base : BaseProvider;
  ddg_allowed : bool;
  ddg_crawl_delay : option Q
}.

(** The provider after [self.queries_made += 1]. *)
Definition d_counted (d : DuckDuckGoProvider) : DuckDuckGoProvider :=
  {| d_base := count_query (d_base d); ddg_allowed := ddg_allowed d;
     ddg_crawl_delay := ddg_crawl_delay d |}.

(** [url = r.get("href") or r.get("link") or r.get("url"); if url: ...] *)
Definition record_url (r : ddg_record) : option string :=
  py_or (py_or (href r) (rlink r)) (rurl r).

Definition append_urls (results : list string) (rs : list ddg_record) : list string :=
  results ++ omap record_url rs.

(** [_respect_ddg_delay] *)
Definition _respect_ddg_delay (d : DuckDuckGoProvider) (w : world) : world :=
  match ddg_crawl_delay d with
  | Some delay => if Qlt_le_dec 0 delay then log (Slept delay) w else w
  | None => w
  end.

(** The [while True] of [DuckDuckGoProvider.query].  [results] is the list
    created once before the loop; every attempt appends to it. *)
Fixpoint ddg_attempts (fuel : nat) (env : environment) (delays : list Q)
    (attempt : Z) (results : list string) (w : world) : option (loop_end * world) :=
  match fuel with
  | O => None
  | S fuel' =>
      let attempt := (attempt + 1)%Z in
      let '(run, w) := run_ddgs_text env w in
      let results := append_urls results (yielded run) in
      if raises run then
        if (attempt <=? len delays)%Z then
          match time_sleep (delay_at delays (attempt - 1)) w with
          | Some w' => ddg_attempts fuel' env delays attempt results w'
          | None => Some (Escaped "ValueError", w)
          end
        else Some (Broke results, w)
      else Some (Broke results, w)
  end.

(** [DuckDuckGoProvider.query]; the loop makes at most [len(delays) + 1]
    attempts, which is the fuel it is given.  As in the keyed-API variant
    the rate limiter leaves no mark on the state modelled here. *)
Definition ddg_query (env : environment) (d : DuckDuckGoProvider)
    (w : world) (keyword : string) (max_results : Z)
    : option (outcome (list string) * DuckDuckGoProvider * world) :=
  if negb (can_continue (d_base d)) then Some (Returned [], d, w)
  else if negb (ddgs_available env) then Some (Returned [], d_counted d, w)
  else
    let w := _respect_ddg_delay d w in
    let delays := _delays (d_base d) in
    match ddg_attempts (S (length delays)) env delays 0 [] w with
    | None => None
    | Some (Broke results, w') =>
        Some (Returned (py_take max_results results), d_counted d, w')
    | Some (Escaped e, w') => Some (Raised e, d, w')
    end.

(** *** The two variants behind one interface *)

Inductive provider :=
| Google (g : GoogleCSEProvider)
| DuckDuckGo (d : DuckDuckGoProvider).

Definition base (p : provider) : BaseProvider :=
  match p with
  | Google g => g_base g
  | DuckDuckGo d => d_base d
  end.

Definition query (fuel : nat) (env : environment) (p : provider) (w : world)
    (keyword : string) (max_results : Z)
    : option (outcome (list string) * provider * world) :=
  match p with
  | Google g =>
      match google_query fuel env g w keyword max_results with
      | Some (r, g', w') => Some (r, Google g', w')
      | None => None
      end
  | DuckDuckGo d =>
      match ddg_query env d w keyword max_results with
      | Some (r, d', w') => Some (r, DuckDuckGo d', w')
      | None => None
      end
  end.

(** *** Vocabulary for the properties of [query] *)

(** [p] after a call that ended in [r]: counted if the call returned,
    untouched if an exception left it. *)
Definition after_call (r : outcome (list string)) (p : BaseProvider) : BaseProvider :=
  match r with
  | Returned _ => count_query p
  | Raised _ => p
  end.

(** An outcome that ends a retry loop whatever the delays are. *)
Definition settles (o : http_outcome) : bool :=
  match o with
  | Response code _ => negb ((code =? 429) || (code =? 503))%Z
  | NetworkError => false
  | OtherError => true
  end.

(** The world after one request, after one search. *)
Definition requested (w : world) : world :=
  log Requested {| http_calls := S (http_calls w); ddgs_runs := ddgs_runs w;
                   trace := trace w |}.

Definition searched (w : world) : world :=
  log Searched {| http_calls := http_calls w; ddgs_runs := S (ddgs_runs w);
                  trace := trace w |}.

(** The URLs yielded by the [n] runs of the search dependency that start
    with run [from]. *)
Definition urls_of_runs (env : environment) (from n : nat) : list string :=
  concat ((fun i => omap record_url (yielded (ddgs_text env i))) <$> seq from n).

(** Backoff settings under which no delay is negative. *)
Definition nonneg_backoff (p : BaseProvider) : Prop :=
  (0 <= backoff_base_seconds p)%Q /\ (0 <= backoff_max_seconds p)%Q.

(** [time.sleep] also refuses, with [OverflowError], an argument that does
    not fit its clock of 2^63 nanoseconds, which is a little more than
    9.2e9 seconds; [time_sleep] above does not model that.  [sleep_limit]
    is a round number of seconds below that bound: a delay between 0 and
    [sleep_limit] is accepted by [time.sleep]. *)
Definition sleep_limit : Q := (9000000000 # 1)%Q.

(** Settings of the DuckDuckGo provider under which [time.sleep] accepts
    whatever [query] hands to it: the backoff delays and the crawl delay
    read from [robots.txt]. *)
Definition sleeps_accepted (d : DuckDuckGoProvider) : Prop :=
  nonneg_backoff (d_base d) /\
  (backoff_base_seconds (d_base d) <= sleep_limit)%Q /\
  (backoff_max_seconds (d_base d) <= sleep_limit)%Q /\
  forall delay, ddg_crawl_delay d = Some delay -> (delay <= sleep_limit)%Q.

(** A sequence of calls of [query] on one provider object. *)
Fixpoint query_all (fuel : nat) (env : environment) (p : provider) (w : world)
    (calls : list (string * Z))
    : option (list (outcome (list string)) * provider * world) :=
  match calls with
  | [] => Some ([], p, w)
  | (keyword, max_results) :: rest =>
      match query fuel env p w keyword max_results with
      | None => None
      | Some (r, p', w') =>
          match query_all fuel env p' w' rest with
          | None => None
          | Some (rs, p'', w'') => Some (r :: rs, p'', w'')
          end
      end
  end.

(** *** The fixtures of the repository's integration tests *)

Module Tests.

(** A mocked [requests.get]: the scripted outcomes, then [rest] forever. *)
Definition scripted {A} (script : list A) (rest : A) : nat -> A :=
  fun n => default rest (script !! n).

Definition no_search : nat -> ddg_run := fun _ => {| yielded := []; raises := true |}.

Definition mock_http (script : list http_outcome) (rest : http_outcome) : environment :=
  {| http := scripted script rest; ddgs_available := false;
     ddgs_text := no_search; output_writable := true |}.

Definition mock_ddgs (script : list ddg_run) (rest : ddg_run) : environment :=
  {| http := fun _ => OtherError; ddgs_available := true;
     ddgs_text := scripted script rest; output_writable := true |}.

Definition google_cfg (quota : Z) : GoogleCSEProvider :=
  {| g_base := {| name := "google_cse"; queries_made := 0;
                  daily_quota_threshold := quota; retry_attempts := 3;
                  backoff_base_seconds := 1 # 1000;
                  backoff_max_seconds := 2 # 1000 |};
     api_key := "fake"; cx := "cx123" |}.

Definition ddg_cfg : DuckDuckGoProvider :=
  {| d_base := {| name := "duckduckgo"; queries_made := 0;
                  daily_quota_threshold := 2; retry_attempts := 2;
                  backoff_base_seconds := 1 # 1000;
                  backoff_max_seconds := 2 # 1000 |};
     ddg_allowed := true; ddg_crawl_delay := None |}.

Definition ok (links : list string) : http_outcome :=
  Response 200 (Some ((fun l => Item (Some l) None) <$> links)).

Definition found (urls : list string) : ddg_run :=
  {| yielded := (fun u => {| href := Some u; rlink := None; rurl := None |}) <$> urls;
     raises := false |}.

Definition result_of {P : Type} (r : option (outcome (list string) * P * world))
    : option (outcome (list string)) :=
  match r with Some (o, _, _) => Some o | None => None end.

Definition counter_of {P : Type} (get : P -> BaseProvider)
    (r : option (outcome (list string) * P * world)) : option Z :=
  match r with Some (_, p, _) => Some (queries_made (get p)) | None => None end.

End Tests.

End Providers.

(** ** The discovery run: [main] of [scripts/discover.py] *)

Module Discover.
Import Providers.

Inductive provider_choice := OnlyGoogle | OnlyDuckDuckGo | AllProviders.

Record Args := {
  arg_provider : provider_choice;
  arg_max_results : Z;
  arg_dry_run : bool
}.

(** The configuration as [main] uses it: the keywords, and per provider
    whether it is enabled and the object its constructor builds. *)
Record Config := {
  keywords : list string;
  google_enabled : bool;
  google_cse : GoogleCSEProvider;
  duckduckgo_enabled : bool;
  duckduckgo : DuckDuckGoProvider
}.

(** [provider_usage[name]]: queries made, domains contributed. *)
Record usage := { u_queries_made : Z; u_domains : Z }.

Inductive run_end :=
| Exited (code : Z)                   (* [sys.exit(code)] *)
| Crashed (exn : string)              (* an exception nobody catches *)
| Finished (out_list : list string).  (* [main] ran to its last line *)

Definition selected (a : Args) (c : Config) : list provider :=
  (if (match arg_provider a with OnlyGoogle | AllProviders => true | _ => false end)
      && google_enabled c then [Google (google_cse c)] else [])
  ++
  (if (match arg_provider a with OnlyDuckDuckGo | AllProviders => true | _ => false end)
      && duckduckgo_enabled c then [DuckDuckGo (duckduckgo c)] else []).

Definition record_usage (p : provider) (nd : list string)
    (u : gmap string usage) : gmap string usage :=
  let old := default {| u_queries_made := 0; u_domains := 0 |} (u !! name (base p)) in
  <[ name (base p) := {| u_queries_made := queries_made (base p);
                        u_domains := u_domains old + len nd |} ]> u.

Record progress := {
  providers : list provider;
  all_domains : gset string;
  provider_usage : gmap string usage
}.

(** [for prov in providers: ...] for one keyword.  The provider objects are
    mutated in place by [query]; [visited] holds those already passed, in
    order and in their new state. *)
Fixpoint each_provider (fuel : nat) (env : environment) (kw : string)
    (max_results : Z) (todo visited : list provider) (domains : gset string)
    (u : gmap string usage) (w : world) : option (outcome progress * world) :=
  match todo with
  | [] => Some (Returned {| providers := visited; all_domains := domains;
                            provider_usage := u |}, w)
  | prov :: rest =>
      if negb (can_continue (base prov))
      then each_provider fuel env kw max_results rest (visited ++ [prov]) domains u w
      else
        match query fuel env prov w kw max_results with
        | None => None
        | Some (Raised e, _, w') => Some (Raised e, w')
        | Some (Returned res, prov', w') =>
            let nd := unique_sorted res in
            each_provider fuel env kw max_results rest (visited ++ [prov'])
              (domains ∪ list_to_set nd) (record_usage prov' nd u) w'
        end
  end.

(** [for kw in keywords: ...] *)
Fixpoint each_keyword (fuel : nat) (env : environment) (kws : list string)
    (max_results : Z) (st : progress) (w : world) : option (outcome progress * world) :=
  match kws with
  | [] => Some (Returned st, w)
  | kw :: rest =>
      match each_provider fuel env kw max_results (providers st) []
              (all_domains st) (provider_usage st) w with
      | None => None
      | Some (Raised e, w') => Some (Raised e, w')
      | Some (Returned st', w') => each_keyword fuel env rest max_results st' w'
      end
  end.

(** [Path(args.output).parent.mkdir(parents=True, exist_ok=True)] and the
    [with args.output.open("w")] block, one line [d + "\n"] per domain.  When
    the place cannot be written the first of the two that fails raises. *)
Definition write_output (env : environment) (out_list : list string) (w : world)
    : outcome unit * world :=
  if output_writable env
  then (Returned tt, log (Wrote ((fun d => d +:+ String "010" "") <$> out_list))
                         (log MadeDirs w))
  else (Raised "PermissionError", w).

(** [main] from the line [keywords = ...] on.  [p.parse_args()] has
    returned [a] and [load_config] has returned the mapping read into [c];
    what these two do on a bad command line or an unreadable file happens
    before and is not part of this function.  [c] holds, for each provider,
    the object its constructor builds when [main] reaches it. *)
Definition main (fuel : nat) (env : environment) (a : Args) (c : Config) (w : world)
    : option (run_end * world) :=
  match keywords c with
  | [] => Some (Exited 2, w)
  | _ =>
      match selected a c with
      | [] => Some (Exited 3, w)
      | provs =>
          let start := {| providers := provs; all_domains := ∅;
                          provider_usage :=
                            list_to_map ((fun p => (name (base p),
                               {| u_queries_made := 0; u_domains := 0 |})) <$> provs) |} in
          match each_keyword fuel env (keywords c) (arg_max_results a) start w with
          | None => None
          | Some (Raised e, w') => Some (Crashed e, w')
          | Some (Returned st, w') =>
              let out_list := merge_sort String.le (elements (all_domains st)) in
              if arg_dry_run a then Some (Finished out_list, w')
              else match write_output env out_list w' with
                   | (Returned _, w'') => Some (Finished out_list, w'')
                   | (Raised e, w'') => Some (Crashed e, w'')
                   end
          end
      end
  end.

(** *** Vocabulary for the properties of [main] *)

(** The events of discovery proper: requests, searches and the sleeps
    between them. *)
Definition discovery_event (e : event) : Prop :=
  match e with
  | Slept _ | Requested | Searched => True
  | MadeDirs | Wrote _ => False
  end.

(** [w'] continues [w] by discovery events only. *)
Definition discovers (w w' : world) : Prop :=
  exists evs, trace w' = (trace w ++ evs)%list /\ Forall discovery_event evs.

(** A run with one keyword and one page of results, with an output
    directory that can or cannot be written. *)
Definition one_page (writable : bool) : environment :=
  {| http := Tests.scripted [] (Tests.ok ["https://a.com/x"]);
     ddgs_available := false;
     ddgs_text := Tests.no_search;
     output_writable := writable |}.

Definition one_keyword : Config :=
  {| keywords := ["plumber"];
     google_enabled := true; google_cse := Tests.google_cfg 2;
     duckduckgo_enabled := false; duckduckgo := Tests.ddg_cfg |}.

Definition write_one : Args :=
  {| arg_provider := AllProviders; arg_max_results := 1; arg_dry_run := false |}.

End Discover.

(** ** The audit runner: [scripts/run_parallel.py] *)

Module Audit.
Import Providers.

(** *** The process table, as [psutil] shows it *)

Record os := {
  running : gset nat;               (* pids of the processes that exist *)
  children_of : nat -> list nat;    (* all descendants of a pid *)
  heeds_terminate : nat -> bool;    (* exits on SIGTERM within the grace period *)
  protected : nat -> bool           (* signalling it is refused *)
}.

Definition set_running (r : gset nat) (s : os) : os :=
  {| running := r; children_of := children_of s;
     heeds_terminate := heeds_terminate s; protected := protected s |}.

Inductive psutil_error := NoSuchProcess | AccessDenied | TimeoutExpired.

Inductive result (A : Type) :=
| Ok (a : A)
| Raise (e : psutil_error).
Arguments Ok {A} a.
Arguments Raise {A} e.

(** [psutil.Process(pid)] *)
Definition psutil_Process (p : nat) (s : os) : result unit :=
  if decide (p ∈ running s) then Ok tt else Raise NoSuchProcess.

(** [parent.children(recursive=True)] *)
Definition children (p : nat) (s : os) : result (list nat) :=
  Ok (filter (fun c => c ∈ running s) (children_of s p)).

(** [p.terminate()] ([lethal = false]) and [p.kill()] ([lethal = true]) *)
Definition send (lethal : bool) (p : nat) (s : os) : result unit * os :=
  if decide (p ∈ running s) then
    if protected s p then (Raise AccessDenied, s)
    else if lethal || heeds_terminate s p
         then (Ok tt, set_running (running s ∖ {[p]}) s)
         else (Ok tt, s)
  else (Raise NoSuchProcess, s).

Definition terminate : nat -> os -> result unit * os := send false.
Definition kill : nat -> os -> result unit * os := send true.

(** [psutil.wait_procs(procs, timeout=2)]: [(gone, alive)] *)
Definition wait_procs (procs : list nat) (s : os) : list nat * list nat :=
  (filter (fun c => c ∉ running s) procs, filter (fun c => c ∈ running s) procs).

(** [p.wait(timeout=2)] *)
Definition proc_wait (p : nat) (s : os) : result unit :=
  if decide (p ∈ running s) then Raise TimeoutExpired else Ok tt.

(** [for p in procs: try: op(p) except: pass] *)
Definition each_ignoring (op : nat -> os -> result unit * os)
    (procs : list nat) (s : os) : os :=
  foldl (fun s p => snd (op p s)) s procs.

(** [kill_chrome_tree(parent_pid)].  The outer handler catches
    [NoSuchProcess] and [AccessDenied]; anything else would leave the
    function, which is what the [Raise] result stands for. *)
Definition kill_chrome_tree (parent_pid : nat) (s : os) : result unit * os :=
  let caught (e : psutil_error) (s : os) : result unit * os :=
    match e with
    | NoSuchProcess | AccessDenied => (Ok tt, s)
    | TimeoutExpired => (Raise e, s)
    end in
  match psutil_Process parent_pid s with
  | Raise e => caught e s
  | Ok _ =>
      match children parent_pid s with
      | Raise e => caught e s
      | Ok kids =>
          let s := each_ignoring terminate kids s in
          let '(gone, alive) := wait_procs kids s in
          let s := each_ignoring kill alive s in
          match terminate parent_pid s with
          | (Raise e, s) => caught e s
          | (Ok _, s) =>
              match proc_wait parent_pid s with
              | Ok _ => (Ok tt, s)
              | Raise _ => (Ok tt, snd (kill parent_pid s))
              end
          end
      end
  end.

(** *** The registry and its sweep *)

Record state := {
  CHROME_PIDS : gset nat;
  table : os
}.

(** [cleanup_all_chrome()] *)
Definition cleanup_all_chrome (st : state) : state :=
  {| CHROME_PIDS := ∅;
     table := foldl (fun s pid => snd (kill_chrome_tree pid s)) (table st)
                (elements (CHROME_PIDS st)) |}.

(** [signal_handler(signum, frame)]: the sweep, then [sys.exit(0)]. *)
Definition signal_handler (st : state) : Z * state := (0%Z, cleanup_all_chrome st).

(** *** One audit *)

Record AuditOutcome := {
  url : string;
  success : bool;
  error : option string
}.

(** What [subprocess.Popen] does for this invocation. *)
Inductive launch :=
| LaunchFails (text : string)            (* it raises; [text] is [str(e)] *)
| Launched (pid : nat).

(** What [proc.communicate(timeout=60)] does, and the process table it
    leaves behind. *)
Inductive waiting :=
| Exits (after : os) (returncode : Z) (stderr : string + string)
    (* [stderr.decode()]: the text, or the message of the error it raises *)
| TimesOut (after : os)
| WaitFails (after : os) (text : string).

Record invocation := { inv_launch : launch; inv_wait : waiting }.

Inductive py_exn :=
| SubprocessTimeoutExpired
| OtherException (text : string).

Definition psutil_text (e : psutil_error) : string :=
  match e with
  | NoSuchProcess => "psutil.NoSuchProcess"
  | AccessDenied => "psutil.AccessDenied"
  | TimeoutExpired => "psutil.TimeoutExpired"
  end.

(** [text[:200]] *)
Definition first_200 (text : string) : string := String.substring 0 200 text.

(** The two [except] clauses, entered with [proc] set. *)
Definition handler (u : string) (pid : nat) (e : py_exn) (st : state)
    : outcome AuditOutcome * state :=
  match kill_chrome_tree pid (table st) with
  | (Raise e', s') =>
      (Raised (psutil_text e'), {| CHROME_PIDS := CHROME_PIDS st; table := s' |})
  | (Ok _, s') =>
      (Returned {| url := u; success := false;
                   error := Some match e with
                                 | SubprocessTimeoutExpired => "Timeout after 60s"
                                 | OtherException text => first_200 text
                                 end |},
       {| CHROME_PIDS := CHROME_PIDS st ∖ {[pid]}; table := s' |})
  end.

(** [run_lighthouse(url)].  The command line and the output slug do not
    influence the control flow and are left out. *)
Definition run_lighthouse (inv : invocation) (u : string) (st : state)
    : outcome AuditOutcome * state :=
  match inv_launch inv with
  | LaunchFails text =>
      (* [proc] is still [None]: nothing to kill, nothing to discard *)
      (Returned {| url := u; success := false; error := Some (first_200 text) |}, st)
  | Launched pid =>
      let st := {| CHROME_PIDS := CHROME_PIDS st ∪ {[pid]};
                   table := set_running (running (table st) ∪ {[pid]}) (table st) |} in
      match inv_wait inv with
      | Exits after returncode stderr =>
          match kill_chrome_tree pid after with
          | (Raise e, s) =>
              handler u pid (OtherException (psutil_text e))
                {| CHROME_PIDS := CHROME_PIDS st; table := s |}
          | (Ok _, s) =>
              let st := {| CHROME_PIDS := CHROME_PIDS st ∖ {[pid]}; table := s |} in
              if (returncode =? 0)%Z
              then (Returned {| url := u; success := true; error := None |}, st)
              else match stderr with
                   | inl text =>
                       (Returned {| url := u; success := false;
                                    error := Some (first_200 text) |}, st)
                   | inr message => handler u pid (OtherException message) st
                   end
          end
      | TimesOut after =>
          handler u pid SubprocessTimeoutExpired
            {| CHROME_PIDS := CHROME_PIDS st; table := after |}
      | WaitFails after text =>
          handler u pid (OtherException text)
            {| CHROME_PIDS := CHROME_PIDS st; table := after |}
      end
  end.

(** *** A hung audit *)

(** An audit that hangs: lighthouse (pid 7) has started two browser
    processes, one of which ignores SIGTERM. *)
Definition hung_table : os :=
  {| running := {[7; 8; 9]};
     children_of := fun p => if (p =? 7)%nat then [8; 9] else [];
     heeds_terminate := fun p => (p =? 8)%nat;
     protected := fun _ => false |}.

Definition hung_audit : invocation :=
  {| inv_launch := Launched 7; inv_wait := TimesOut hung_table |}.

Definition idle : state :=
  {| CHROME_PIDS := {[3]};
     table := {| running := {[3]}; children_of := fun _ => [];
                 heeds_terminate := fun _ => true; protected := fun _ => false |} |}.

End Audit.

(** ** The audit runner: output names and the domain list *)

Module Runner.
Import PyStr.

(** [str.isalnum] on one code point below 256: the digits, the ASCII
    letters, the Latin-1 letters (0xAA, 0xB5, 0xBA, 0xC0..0xFF without the
    multiplication and division signs) and the Latin-1 numeric characters
    (superscripts 0xB2, 0xB3, 0xB9 and the fractions 0xBC..0xBE). *)
Definition is_alnum (c : ascii) : bool :=
  let n := N_of_ascii c in
  ((48 <=? n) && (n <=? 57) || (65 <=? n) && (n <=? 90) || (97 <=? n) && (n <=? 122)
   || (n =? 170) || (n =? 178) || (n =? 179) || (n =? 181) || (n =? 185) || (n =? 186)
   || (188 <=? n) && (n <=? 190)
   || (192 <=? n) && (n <=? 214) || (216 <=? n) && (n <=? 246)
   || (248 <=? n) && (n <=? 255))%N.

(** [s.replace(old, new)] for a non-empty [old]: the occurrences of [old]
    are found from left to right, without overlap, and each gives way to
    [new].  [skip] counts the characters of an occurrence that are still to
    be passed over. *)
Fixpoint replace_from (old new : string) (skip : nat) (s : string) : string :=
  match s with
  | EmptyString => EmptyString
  | String c s' =>
      match skip with
      | S k => replace_from old new k s'
      | O =>
          if startswith s old
          then new ++ replace_from old new (String.length old - 1) s'
          else String c (replace_from old new 0 s')
      end
  end.

Definition replace (s old new : string) : string := replace_from old new 0 s.

(** [c if c.isalnum() or c in "._-" else "_"] *)
Definition slug_char (c : ascii) : ascii :=
  if is_alnum c || mem c "._-" then c else "_"%char.

Fixpoint join_map (f : ascii -> ascii) (s : string) : string :=
  match s with
  | EmptyString => EmptyString
  | String c s' => String (f c) (join_map f s')
  end.

(** The two assignments to [slug] in [run_lighthouse]. *)
Definition slug (url : string) : string :=
  let slug := replace (replace url "https://" "") "http://" "" in
  join_map slug_char slug.

(** [out_base = f"outputs/lighthouse/{slug}"] *)
Definition out_base (url : string) : string := "outputs/lighthouse/" ++ slug url.

(** [domains = [line.strip() for line in f if line.strip() and not
    line.startswith("#")]], on the lines the file yields (each with its line
    end). *)
Definition domains (lines : list string) : list string :=
  strip <$> List.filter
              (fun line => negb (String.eqb (strip line) "") && negb (startswith line "#"))
              lines.

(** [d if d.startswith("http") else f"https://{d}"] *)
Definition to_url (d : string) : string :=
  if startswith d "http" then d else "https://" ++ d.

Definition urls (lines : list string) : list string := to_url <$> domains lines.

End Runner.

(** * Part II: properties *)

(** ** Facts about the string primitives *)

Module PyStrFacts.
Import PyStr.

Lemma append_assoc (a b c : string) : (a ++ b) ++ c = a ++ (b ++ c).
Proof. induction a as [|x a IH]; simpl; [reflexivity | now rewrite IH]. Qed.

Lemma length_append (a b : string) :
  String.length (a ++ b) = String.length a + String.length b.
Proof. induction a as [|x a IH]; simpl; [reflexivity | now rewrite IH]. Qed.

Lemma mem_append c a b : mem c (a ++ b) = mem c a || mem c b.
Proof.
  induction a as [|x a IH]; simpl; [reflexivity |].
  destruct (ascii_dec c x); [reflexivity | exact IH].
Qed.

Lemma prefix_append p r : String.prefix p (p ++ r) = true.
Proof.
  induction p as [|x p IH]; simpl; [now destruct r |].
  destruct (ascii_dec x x); [exact IH | congruence].
Qed.

Lemma prefix_drop p s :
  String.prefix p s = true -> s = p ++ drop (String.length p) s.
Proof.
  revert s. induction p as [|x p IH]; intros s H; simpl in *; [reflexivity |].
  destruct s as [|y s]; simpl in H; [done |].
  destruct (ascii_dec x y) as [->|]; [| done].
  simpl. now rewrite <- (IH s H).
Qed.

Lemma prefix_length p s :
  String.prefix p s = true -> String.length p <= String.length s.
Proof.
  revert s. induction p as [|x p IH]; intros s H; simpl in *; [lia |].
  destruct s as [|y s]; simpl in H; [done |].
  destruct (ascii_dec x y); [| done].
  specialize (IH s H). simpl. lia.
Qed.

Lemma length_drop n s : String.length (drop n s) = String.length s - n.
Proof.
  revert s. induction n as [|n IH]; intros [|y s]; simpl; try lia. apply IH.
Qed.

Lemma mem_drop c n s : mem c s = false -> mem c (drop n s) = false.
Proof.
  revert s. induction n as [|n IH]; intros [|y s]; simpl; auto.
  destruct (ascii_dec c y); [discriminate | auto].
Qed.

(** *** [cut] finds the leftmost occurrence *)

Lemma cut_eq sep s :
  cut sep s =
  if String.prefix sep s then Some ("", drop (String.length sep) s)
  else match s with
       | "" => None
       | String c s' =>
           match cut sep s' with
           | Some (a, b) => Some (String c a, b)
           | None => None
           end
       end.
Proof. destruct s; reflexivity. Qed.

Lemma cut_Some sep s a b :
  cut sep s = Some (a, b) ->
  s = a ++ sep ++ b /\
  forall a' b', s = a' ++ sep ++ b' -> String.length a <= String.length a'.
Proof.
  revert a b. induction s as [|c s IH]; intros a b; rewrite cut_eq;
    destruct (String.prefix sep _) eqn:Hp; try done.
  - intros [= <- <-]. split; [| simpl; lia]. now apply prefix_drop in Hp.
  - intros [= <- <-]. split; [| simpl; lia]. now apply prefix_drop in Hp.
  - destruct (cut sep s) as [[a0 b0]|] eqn:Hc; [| done].
    intros [= <- <-]. destruct (IH _ _ eq_refl) as [Hs Hmin]. split.
    + simpl. now rewrite <- Hs.
    + intros [|c' a'] b' Heq.
      * simpl in Heq. rewrite Heq, prefix_append in Hp. discriminate.
      * simpl in Heq. injection Heq as _ Heq.
        specialize (Hmin _ _ Heq). simpl. lia.
Qed.


Lemma cut_absent c sep s : mem c s = false -> cut (String c sep) s = None.
Proof.
  induction s as [|y s IH]; [reflexivity |].
  rewrite cut_eq. simpl. destruct (ascii_dec c y); [done |].
  intros H. now rewrite (IH H).
Qed.

Lemma cut_char_fst c s a b : cut (String c "") s = Some (a, b) -> mem c a = false.
Proof.
  revert a b. induction s as [|y s IH]; intros a b; [done |].
  rewrite cut_eq. simpl. destruct (ascii_dec c y).
  - destruct s; intros [= <- <-]; reflexivity.
  - destruct (cut (String c "") s) as [[a0 b0]|] eqn:Hc; [| done].
    intros [= <- <-]. simpl. destruct (ascii_dec c y); [contradiction |].
    exact (IH _ _ eq_refl).
Qed.

Lemma cut_char_None c s : cut (String c "") s = None -> mem c s = false.
Proof.
  induction s as [|y s IH]; [done |].
  rewrite cut_eq. simpl. destruct (ascii_dec c y); [destruct s; done |].
  destruct (cut (String c "") s) as [[a0 b0]|]; [done | auto].
Qed.

Lemma first_part_split1_char c s :
  mem c (first_part (split1 (String c "") s)) = false.
Proof.
  unfold split1. destruct (cut (String c "") s) as [[a b]|] eqn:Hc; simpl.
  - exact (cut_char_fst _ _ _ _ Hc).
  - exact (cut_char_None _ _ Hc).
Qed.

Lemma first_part_split1_mem c sep s :
  mem c s = false -> mem c (first_part (split1 sep s)) = false.
Proof.
  unfold split1. destruct (cut sep s) as [[a b]|] eqn:Hc; simpl; [| done].
  destruct (cut_Some _ _ _ _ Hc) as [-> _]. rewrite mem_append.
  now intros [? _]%orb_false_elim.
Qed.

Lemma split1_absent c sep s : mem c s = false -> split1 (String c sep) s = [s].
Proof. intros H. unfold split1. now rewrite (cut_absent _ _ _ H). Qed.

(** *** Case folding and whitespace *)

Ltac by_cases_on_byte c := destruct c as [[] [] [] [] [] [] [] []]; reflexivity.

Lemma lower_char_idem c : lower_char (lower_char c) = lower_char c.
Proof. by_cases_on_byte c. Qed.

Lemma is_space_lower_char c : is_space (lower_char c) = is_space c.
Proof. by_cases_on_byte c. Qed.

Lemma slash_lower_char c :
  (if ascii_dec "/" (lower_char c) then true else false) =
  (if ascii_dec "/" c then true else false).
Proof. by_cases_on_byte c. Qed.

Lemma colon_lower_char c :
  (if ascii_dec ":" (lower_char c) then true else false) =
  (if ascii_dec ":" c then true else false).
Proof. by_cases_on_byte c. Qed.

Lemma lower_idem s : lower (lower s) = lower s.
Proof.
  induction s as [|c s IH]; simpl; [done |]. now rewrite lower_char_idem, IH.
Qed.

Lemma mem_slash_lower s : mem "/" (lower s) = mem "/" s.
Proof.
  induction s as [|c s IH]; simpl; [done |].
  pose proof (slash_lower_char c) as H.
  destruct (ascii_dec "/" (lower_char c)), (ascii_dec "/" c); done.
Qed.

Lemma mem_colon_lower s : mem ":" (lower s) = mem ":" s.
Proof.
  induction s as [|c s IH]; simpl; [done |].
  pose proof (colon_lower_char c) as H.
  destruct (ascii_dec ":" (lower_char c)), (ascii_dec ":" c); done.
Qed.

Lemma lower_drop n s : lower (drop n s) = drop n (lower s).
Proof. revert s. induction n as [|n IH]; intros [|c s]; simpl; auto. Qed.

Lemma lower_lstrip s : lower (lstrip s) = lstrip (lower s).
Proof.
  induction s as [|c s IH]; simpl; [done |].
  rewrite is_space_lower_char. now destruct (is_space c).
Qed.

Lemma lower_rstrip s : lower (rstrip s) = rstrip (lower s).
Proof.
  induction s as [|c s IH]; simpl; [done |].
  rewrite <- IH, is_space_lower_char.
  destruct (rstrip s); simpl; [now destruct (is_space c) | done].
Qed.

Lemma lower_strip s : lower (strip s) = strip (lower s).
Proof. unfold strip. now rewrite lower_rstrip, lower_lstrip. Qed.

Lemma mem_lstrip c s : mem c s = false -> mem c (lstrip s) = false.
Proof.
  induction s as [|y s IH]; simpl; [done |].
  destruct (ascii_dec c y); [done |]. intros H.
  destruct (is_space y); simpl; [auto |]. now destruct (ascii_dec c y).
Qed.

Lemma mem_rstrip c s : mem c s = false -> mem c (rstrip s) = false.
Proof.
  induction s as [|y s IH]; simpl; [done |].
  destruct (ascii_dec c y) as [|Hne]; [done |]. intros H. specialize (IH H).
  destruct (rstrip s); simpl.
  - destruct (is_space y); simpl; [done |]. now destruct (ascii_dec c y).
  - destruct (ascii_dec c y); [done |]. exact IH.
Qed.

Lemma mem_strip c s : mem c s = false -> mem c (strip s) = false.
Proof. intros H. apply mem_rstrip, mem_lstrip, H. Qed.

Lemma length_lstrip s : String.length (lstrip s) <= String.length s.
Proof.
  induction s as [|c s IH]; simpl; [lia |]. destruct (is_space c); simpl; lia.
Qed.

Lemma lstrip_fixed s : String.length (lstrip s) = String.length s -> lstrip s = s.
Proof.
  destruct s as [|c s]; simpl; [done |]. destruct (is_space c); [| done].
  pose proof (length_lstrip s). lia.
Qed.

Lemma length_rstrip s : String.length (rstrip s) <= String.length s.
Proof.
  induction s as [|c s IH]; simpl; [lia |].
  destruct (rstrip s); [destruct (is_space c) |]; simpl in *; lia.
Qed.

Lemma rstrip_fixed s : String.length (rstrip s) = String.length s -> rstrip s = s.
Proof.
  induction s as [|c s IH]; simpl; [done |].
  pose proof (length_rstrip s) as Hle.
  destruct (rstrip s) as [|y r] eqn:Hr.
  - destruct (is_space c); simpl; [done |]. destruct s; simpl; [done | lia].
  - simpl in *. intros [= Hlen]. now rewrite IH.
Qed.

Lemma length_strip s : String.length (strip s) <= String.length s.
Proof.
  unfold strip. pose proof (length_rstrip (lstrip s)).
  pose proof (length_lstrip s). lia.
Qed.

Lemma strip_fixed s : String.length (strip s) = String.length s -> strip s = s.
Proof.
  unfold strip. intros H. pose proof (length_rstrip (lstrip s)).
  pose proof (length_lstrip s).
  assert (lstrip s = s) as Hl by (apply lstrip_fixed; lia).
  rewrite Hl in *. now apply rstrip_fixed.
Qed.

End PyStrFacts.

(** ** [normalize_domain] *)

Module NormalizeFacts.
Import PyStr PyStrFacts Normalize.

Example normalize_domain_test_1 :
  normalize_domain "https://Example.com/path" = "example.com".
Proof. reflexivity. Qed.

Example normalize_domain_test_2 :
  normalize_domain "http://www.Example.org:443" = "example.org".
Proof. reflexivity. Qed.

Example normalize_domain_test_3 : normalize_domain "EXAMPLE.net" = "example.net".
Proof. reflexivity. Qed.

Example normalize_domain_www_twice :
  normalize_domain "www.www.example.com" = "www.example.com".
Proof. reflexivity. Qed.




Lemma normalize_domain_clean x : clean (normalize_domain x).
Proof.
  unfold normalize_domain.
  set (d1 := last_part (split1 "//" (strip x))).
  set (d2 := first_part (split1 "/" d1)).
  set (d3 := first_part (split1 ":" d2)).
  assert (mem "/" d3 = false) as Hs
    by apply first_part_split1_mem, first_part_split1_char.
  assert (mem ":" d3 = false) as Hc by apply first_part_split1_char.
  assert (clean (lower d3)) as (H1 & H2 & H3).
  { unfold clean. now rewrite mem_slash_lower, mem_colon_lower, lower_idem. }
  destruct (startswith (lower d3) "www."); [| done].
  unfold clean. rewrite lower_drop, H3. auto using mem_drop.
Qed.

Lemma clean_strip s : clean s -> clean (strip s).
Proof.
  intros (H1 & H2 & H3). unfold clean.
  rewrite lower_strip, H3. auto using mem_strip.
Qed.

Lemma normalize_domain_of_clean y :
  clean y -> normalize_domain y = strip_www (strip y).
Proof.
  intros (H1 & H2 & H3)%clean_strip. unfold normalize_domain.
  rewrite (split1_absent "/" "/" _ H1).
  change (last_part [strip y]) with (strip y).
  rewrite (split1_absent "/" "" _ H1).
  change (first_part [strip y]) with (strip y).
  rewrite (split1_absent ":" "" _ H2).
  change (first_part [strip y]) with (strip y).
  now rewrite H3.
Qed.

Lemma length_strip_www d : String.length (strip_www d) <= String.length d.
Proof.
  unfold strip_www. destruct (startswith d "www."); [| lia].
  rewrite length_drop. lia.
Qed.

Lemma strip_www_fixed d : strip_www d = d -> startswith d "www." = false.
Proof.
  unfold strip_www, startswith. destruct (String.prefix "www." d) eqn:Hp; [| done].
  intros H. apply (f_equal String.length) in H. rewrite length_drop in H.
  apply prefix_length in Hp. simpl in Hp. lia.
Qed.

(** C3, as the specification states it, fails: one pass removes one
    leading [www.] only, so a host that carries the prefix twice is changed
    again by a second pass. *)
Lemma normalize_domain_not_idempotent :
  ~ (forall x, normalize_domain (normalize_domain x) = normalize_domain x).
Proof.
  intros H. specialize (H "www.www.example.com"). vm_compute in H. discriminate.
Qed.

(** C3, amended: a second pass of [normalize_domain] leaves the result of the
    first unchanged exactly when that result has no leading or trailing
    whitespace and does not itself begin with [www.]. *)
Theorem normalize_domain_idempotent_iff x :
  normalize_domain (normalize_domain x) = normalize_domain x <->
  strip (normalize_domain x) = normalize_domain x /\
  startswith (normalize_domain x) "www." = false.
Proof.
  pose proof (normalize_domain_clean x) as Hc.
  rewrite (normalize_domain_of_clean _ Hc).
  set (y := normalize_domain x). split.
  - intros H.
    assert (String.length (strip y) = String.length y) as Hlen.
    { pose proof (length_strip_www (strip y)). pose proof (length_strip y).
      rewrite H in *. lia. }
    apply strip_fixed in Hlen. rewrite Hlen in H.
    split; [done | now apply strip_www_fixed].
  - intros [Hs Hw]. rewrite Hs. unfold strip_www. now rewrite Hw.
Qed.

Lemma normalize_domain_idempotent_iff_witness :
  normalize_domain (normalize_domain "https://WWW.Example.COM:443/path") =
  normalize_domain "https://WWW.Example.COM:443/path".
Proof.
  apply (proj2 (normalize_domain_idempotent_iff _)). split; reflexivity.
Defined.



End NormalizeFacts.

(** ** [unique_sorted] *)

Example unique_sorted_test :
  unique_sorted ["https://a.com/x"; "A.com"; "b.com"; "www.b.com"] = ["a.com"; "b.com"].
Proof. vm_compute. reflexivity. Qed.

Module ValidityFacts.
Import Validity.

Example is_valid_domain_tests :
  is_valid_domain "example.com" = true /\
  is_valid_domain "sub.example.co.uk" = true /\
  is_valid_domain "localhost" = false /\
  is_valid_domain "127.0.0.1" = false /\
  is_valid_domain "192.168.1.1" = false /\
  is_valid_domain "" = false /\
  is_valid_domain "no-tld" = false /\
  is_valid_domain "example" = false.
Proof. repeat split. Qed.

End ValidityFacts.

Lemma unique_sorted_Permutation domains :
  unique_sorted domains ≡ₚ
  elements (list_to_set
    (filter (fun d => d <> "") (normalize_domain <$> domains)) : gset string).
Proof. apply merge_sort_Permutation. Qed.

Lemma unique_sorted_sorted domains : StronglySorted String.le (unique_sorted domains).
Proof. apply (StronglySorted_merge_sort _). Qed.

Lemma unique_sorted_NoDup domains : NoDup (unique_sorted domains).
Proof. rewrite unique_sorted_Permutation. apply NoDup_elements. Qed.

Lemma elem_of_unique_sorted domains x :
  x ∈ unique_sorted domains <->
  x <> "" /\ exists d, d ∈ domains /\ normalize_domain d = x.
Proof.
  rewrite unique_sorted_Permutation, elem_of_elements, elem_of_list_to_set.
  rewrite list_elem_of_filter, list_elem_of_fmap. split.
  - intros [Hne (d & -> & Hd)]. eauto.
  - intros [Hne (d & Hd & <-)]. eauto.
Qed.

Lemma unique_sorted_filter_test_input :
  unique_sorted filter_test_input =
  ["127.0.0.1"; "also-valid.org"; "invalid"; "localhost"; "valid.com"].
Proof. vm_compute. reflexivity. Qed.

(** C4 fails on the code: [unique_sorted] normalizes, drops the empty
    results, removes duplicates and sorts, but it applies no validity
    filter.  On the input of the repository's own test for this behaviour
    it keeps [localhost], the IPv4 literal and the dotless word, which the
    test expects to be dropped. *)
Theorem unique_sorted_keeps_invalid :
  unique_sorted filter_test_input =
    ["127.0.0.1"; "also-valid.org"; "invalid"; "localhost"; "valid.com"] /\
  unique_sorted filter_test_input <> ["also-valid.org"; "valid.com"] /\
  exists d, d ∈ unique_sorted filter_test_input /\
            Validity.is_valid_domain d = false.
Proof.
  rewrite unique_sorted_filter_test_input.
  split; [reflexivity |]. split; [discriminate |].
  exists "localhost". split; [repeat constructor | reflexivity].
Qed.

(** ** [backoff_delays] *)

Module BackoffFacts.
Import Backoff.
Local Open Scope Q_scope.

Example backoff_delays_test : backoff_delays (1#2) 2 3 = [1#2; 1].
Proof. reflexivity. Qed.

Example backoff_delays_defaults :
  backoff_delays (1#2) 8 6 = [1#2; 1; 2; 4; 8].
Proof. reflexivity. Qed.

Example backoff_delays_base_above_max : backoff_delays 10 2 3 = [10; 2].
Proof. reflexivity. Qed.

Lemma pow2_0 : pow2 0 == 1.
Proof. reflexivity. Qed.

Lemma pow2_S k : pow2 (S k) == 2 * pow2 k.
Proof.
  unfold pow2. rewrite Nat2Z.inj_succ, Z.pow_succ_r by lia.
  now rewrite inject_Z_mult.
Qed.

Lemma pow2_ge_1 k : 1 <= pow2 k.
Proof.
  unfold pow2. change 1 with (inject_Z 1). rewrite <- Zle_Qle.
  pose proof (Z.pow_pos_nonneg 2 (Z.of_nat k)). lia.
Qed.

Lemma length_backoff_loop max_s n cur : length (backoff_loop max_s n cur) = n.
Proof. revert cur. induction n as [|n IH]; intros cur; simpl; auto. Qed.

Lemma backoff_loop_head max_s n cur d :
  backoff_loop max_s n cur !! 0%nat = Some d -> d = cur.
Proof. destruct n; simpl; congruence. Qed.

(** Each later delay is the minimum of [max_s] and twice its predecessor. *)
Lemma backoff_loop_step max_s n cur k d d' :
  backoff_loop max_s n cur !! k = Some d ->
  backoff_loop max_s n cur !! S k = Some d' ->
  d' == Qmin max_s (d * 2).
Proof.
  revert cur k. induction n as [|n IH]; intros cur k; simpl; [done |].
  destruct k as [|k]; simpl.
  - intros [= <-] Hd'. apply backoff_loop_head in Hd'. subst d'.
    now rewrite Qred_correct.
  - apply IH.
Qed.

Lemma backoff_loop_lookup max_s n cur k d :
  0 < cur -> cur <= max_s ->
  backoff_loop max_s n cur !! k = Some d ->
  d == Qmin max_s (cur * pow2 k).
Proof.
  revert cur k. induction n as [|n IH]; intros cur k Hpos Hle; simpl; [done |].
  destruct k as [|k]; simpl.
  - intros [= <-]. rewrite pow2_0, Q.min_r; lra.
  - intros Hd.
    pose proof (Qred_correct (cur * 2)) as Hred.
    pose proof (pow2_ge_1 k) as Hp. pose proof (pow2_S k) as HS.
    destruct (Q.min_spec max_s (Qred (cur * 2))) as [[Hlt Hmin]|[Hge Hmin]].
    + apply IH in Hd; [| lra..]. rewrite Hd, Hmin.
      rewrite (Q.min_l max_s (max_s * pow2 k)) by nra.
      rewrite Q.min_l; [reflexivity |]. rewrite HS. nra.
    + apply IH in Hd; [| lra..]. rewrite Hd, Hmin, Hred, HS.
      now rewrite <- !Qmult_assoc.
Qed.

(** When [base] does not exceed [max_s] the delays follow the closed form:
    for all [0 < base <= max_s] and all [attempts], [backoff_delays]
    returns [max(attempts - 1, 0)] delays, the [k]-th of which is
    [min(max_s, base * 2^k)]. *)
Lemma backoff_delays_geometric base max_s attempts :
  0 < base -> base <= max_s ->
  length (backoff_delays base max_s attempts)
    = Z.to_nat (Z.max (attempts - 1) 0) /\
  (forall k d, backoff_delays base max_s attempts !! k = Some d ->
               d == Qmin max_s (base * pow2 k)) /\
  backoff_delays (1#2) 2 3 = [1#2; 1].
Proof.
  intros Hpos Hle. unfold backoff_delays. split; [| split].
  - rewrite length_backoff_loop. f_equal. lia.
  - intros k d. now apply backoff_loop_lookup.
  - reflexivity.
Qed.

(** Every delay but the first has been through [min(max_s, ...)]. *)
Lemma backoff_loop_later_capped max_s n cur k d :
  backoff_loop max_s n cur !! S k = Some d -> d <= max_s.
Proof.
  revert cur k. induction n as [|n IH]; intros cur k; simpl; [done |].
  destruct k as [|k].
  - intros Hd. apply backoff_loop_head in Hd. subst d. apply Q.le_min_l.
  - apply IH.
Qed.

(** C5 fails on the code, by a slip.  The loop caps every delay it computes
    by doubling ([cur = min(max_s, cur * 2.0)]), but the first delay is the
    initial [cur = base], which is appended before it is ever compared with
    [max_s].  With [base > max_s] the first term exceeds the cap:
    [backoff_delays(10, 2, 3) == [10, 2]], where the capped geometric
    sequence of the claim is [[2, 2]].  The first delay is [base] whatever
    [max_s] is; every later delay is at most [max_s]. *)
Theorem backoff_delays_first_delay_uncapped :
  backoff_delays 10 2 3 = [10; 2] /\
  ~ (forall k d, backoff_delays 10 2 3 !! k = Some d ->
                 d == Qmin 2 (10 * pow2 k)) /\
  (forall base max_s attempts d,
      backoff_delays base max_s attempts !! 0%nat = Some d -> d = base) /\
  (forall base max_s attempts k d,
      backoff_delays base max_s attempts !! S k = Some d -> d <= max_s).
Proof.
  split; [reflexivity |]. split; [| split].
  - intros H. specialize (H 0%nat 10 eq_refl). vm_compute in H. discriminate.
  - intros base max_s attempts d. apply backoff_loop_head.
  - intros base max_s attempts k d. apply backoff_loop_later_capped.
Qed.

End BackoffFacts.

(** ** Search providers *)

Module ProvidersFacts.
Import Backoff BackoffFacts Providers.

(** *** The repository's integration tests, replayed *)

Module TestsFacts.
Import Tests.

(** [test_google_query_success]: every request answers with the same page,
    so the ten page rounds collect it again and again. *)
Example test_google_query_success :
  let r := google_query 1 (mock_http [] (ok ["https://One.com/a"; "https://two.com/b"]))
             (google_cfg 2) world0 "kw" 5 in
  result_of r = Some (Returned ["https://One.com/a"; "https://two.com/b";
                                "https://One.com/a"; "https://two.com/b";
                                "https://One.com/a"]) /\
  counter_of g_base r = Some 1%Z.
Proof. vm_compute. split; reflexivity. Qed.

(** [test_google_query_429_then_ok]: the mock raises [IndexError] once the
    script is used up. *)
Example test_google_query_429_then_ok :
  let r := google_query 2 (mock_http [Response 429 None; ok ["https://a.com"]] OtherError)
             (google_cfg 2) world0 "kw" 1 in
  result_of r = Some (Returned ["https://a.com"]) /\
  counter_of g_base r = Some 1%Z.
Proof. vm_compute. split; reflexivity. Qed.

(** [test_ddg_query_success] *)
Example test_ddg_query_success :
  let r := ddg_query (mock_ddgs [] (found ["https://x.com/a"; "https://y.com/b"]))
             ddg_cfg world0 "kw" 5 in
  result_of r = Some (Returned ["https://x.com/a"; "https://y.com/b"]) /\
  counter_of d_base r = Some 1%Z.
Proof. vm_compute. split; reflexivity. Qed.

(** With a non-empty delay list the clamped index is always in range: a
    service that keeps answering 429 is retried for as long as there is
    fuel. *)
Example google_retries_without_bound :
  google_query 1000 (mock_http [] (Response 429 None)) (google_cfg 2) world0 "kw" 1
  = None.
Proof. vm_compute. reflexivity. Qed.

End TestsFacts.

(** *** The query counter *)

Lemma google_query_over_quota fuel env g w kw m :
  can_continue (g_base g) = false ->
  google_query fuel env g w kw m = Some (Returned [], g, w).
Proof. intros H. unfold google_query. now rewrite H. Qed.

Lemma google_query_under_quota fuel env g w kw m r g' w' :
  can_continue (g_base g) = true ->
  google_query fuel env g w kw m = Some (r, g', w') ->
  g_base g' = after_call r (g_base g).
Proof.
  intros H. unfold google_query. rewrite H. cbn [negb].
  destruct (negb (negb (String.eqb (api_key g) "") && negb (String.eqb (cx g) ""))).
  - now intros [= <- <- <-].
  - destruct (google_pages _ _ _ _ _ _ _ _) as [[[results|e] w1]|]; [| | done].
    + now intros [= <- <- <-].
    + now intros [= <- <- <-].
Qed.

Lemma ddg_query_over_quota env d w kw m :
  can_continue (d_base d) = false ->
  ddg_query env d w kw m = Some (Returned [], d, w).
Proof. intros H. unfold ddg_query. now rewrite H. Qed.

Lemma ddg_query_under_quota env d w kw m r d' w' :
  can_continue (d_base d) = true ->
  ddg_query env d w kw m = Some (r, d', w') ->
  d_base d' = after_call r (d_base d).
Proof.
  intros H. unfold ddg_query. rewrite H. cbn [negb].
  destruct (negb (ddgs_available env)).
  - now intros [= <- <- <-].
  - destruct (ddg_attempts _ _ _ _ _ _) as [[[results|e] w1]|]; [| | done].
    + now intros [= <- <- <-].
    + now intros [= <- <- <-].
Qed.

Lemma query_over_quota fuel env p w kw m :
  can_continue (base p) = false ->
  query fuel env p w kw m = Some (Returned [], p, w).
Proof.
  intros H. destruct p as [g|d]; simpl in *.
  - now rewrite google_query_over_quota.
  - now rewrite ddg_query_over_quota.
Qed.

Lemma query_under_quota fuel env p w kw m r p' w' :
  can_continue (base p) = true ->
  query fuel env p w kw m = Some (r, p', w') ->
  base p' = after_call r (base p).
Proof.
  intros H. destruct p as [g|d]; simpl in *.
  - destruct (google_query _ _ _ _ _ _) as [[[r0 g'] w0]|] eqn:E; [| done].
    intros [= <- <- <-]. exact (google_query_under_quota _ _ _ _ _ _ _ _ _ H E).
  - destruct (ddg_query _ _ _ _ _) as [[[r0 d'] w0]|] eqn:E; [| done].
    intros [= <- <- <-]. exact (ddg_query_under_quota _ _ _ _ _ _ _ _ H E).
Qed.

(** *** The library-backed variant always comes back *)

Lemma time_sleep_runs d w w' : time_sleep d w = Some w' -> ddgs_runs w' = ddgs_runs w.
Proof. unfold time_sleep. destruct (Qle_bool 0 d); [| done]. now intros [= <-]. Qed.

Lemma ddg_attempts_total fuel env delays attempt results w :
  (0 < fuel)%nat ->
  (len delays - attempt < Z.of_nat fuel)%Z ->
  is_Some (ddg_attempts fuel env delays attempt results w).
Proof.
  revert attempt results w.
  induction fuel as [|fuel IH]; intros attempt results w Hpos Hf; [lia |].
  simpl. destruct (raises _); [| eauto].
  destruct (Z.leb_spec (attempt + 1) (len delays)); [| eauto].
  destruct (time_sleep _ _); [| eauto]. apply IH; lia.
Qed.

Lemma ddg_query_total env d w kw m : is_Some (ddg_query env d w kw m).
Proof.
  unfold ddg_query. destruct (negb (can_continue _)); [eauto |].
  destruct (negb (ddgs_available env)); [eauto |].
  destruct (ddg_attempts_total (S (length (_delays (d_base d)))) env
              (_delays (d_base d)) 0 [] (_respect_ddg_delay d w)) as [[[r|e] w'] ->];
    [lia | unfold len; lia | eauto..].
Qed.

(** *** When the keyed-API variant comes back *)

Lemma time_sleep_calls d w w' : time_sleep d w = Some w' -> http_calls w' = http_calls w.
Proof. unfold time_sleep. destruct (Qle_bool 0 d); [| done]. now intros [= <-]. Qed.

Lemma google_attempts_mono fuel fuel' env delays attempt results w x :
  (fuel <= fuel')%nat ->
  google_attempts fuel env delays attempt results w = Some x ->
  google_attempts fuel' env delays attempt results w = Some x.
Proof.
  revert fuel' attempt w.
  induction fuel as [|fuel IH]; intros fuel' attempt w Hle; [done |].
  destruct fuel' as [|fuel']; [lia |]. simpl.
  destruct (http env (http_calls w)) as [code items| |]; try done.
  - destruct (code =? 200)%Z; [done |].
    destruct ((code =? 429) || (code =? 503))%Z; [| done].
    destruct (_ && _); [| done]. destruct (time_sleep _ _); [| done].
    apply IH. lia.
  - destruct (_ && _); [| done]. destruct (time_sleep _ _); [| done].
    apply IH. lia.
Qed.

Lemma google_pages_mono pages fuel fuel' env delays m start results w x :
  (fuel <= fuel')%nat ->
  google_pages pages fuel env delays m start results w = Some x ->
  google_pages pages fuel' env delays m start results w = Some x.
Proof.
  intros Hle. revert start results w.
  induction pages as [|pages IH]; intros start results w; simpl; [done |].
  destruct (_ && _); [| done].
  destruct (google_attempts fuel _ _ _ _ _) as [[[res|e] w1]|] eqn:E; [| | done].
  - rewrite (google_attempts_mono _ _ _ _ _ _ _ _ Hle E).
    destruct (m <=? len res)%Z; [done | apply IH].
  - now rewrite (google_attempts_mono _ _ _ _ _ _ _ _ Hle E).
Qed.

Lemma google_attempts_returns env delays k :
  forall fuel attempt results w,
    settles (http env (http_calls w + k)) = true ->
    (k < fuel)%nat ->
    is_Some (google_attempts fuel env delays attempt results w).
Proof.
  induction k as [|k IH]; intros fuel attempt results w Hs Hf;
    (destruct fuel as [|fuel]; [lia |]); simpl.
  - rewrite Nat.add_0_r in Hs.
    destruct (http env (http_calls w)) as [code items| |]; simpl in Hs; try done.
    destruct (code =? 200)%Z; [destruct items; eauto |].
    destruct ((code =? 429) || (code =? 503))%Z; [done | eauto].
  - assert (forall d w1, time_sleep d
              (log Requested {| http_calls := S (http_calls w);
                                ddgs_runs := ddgs_runs w; trace := trace w |})
              = Some w1 ->
            is_Some (google_attempts fuel env delays (attempt + 1) results w1)) as Hrec.
    { intros d w1 Hw1. apply IH; [| lia].
      rewrite (time_sleep_calls _ _ _ Hw1). simpl.
      now replace (http_calls w + S k)%nat with (S (http_calls w + k)) in Hs by lia. }
    destruct (http env (http_calls w)) as [code items| |]; [| | eauto].
    + destruct (code =? 200)%Z; [destruct items; eauto |].
      destruct ((code =? 429) || (code =? 503))%Z; [| eauto].
      destruct (_ && _); [| eauto].
      destruct (time_sleep _ _) eqn:E; [eauto | eauto].
    + destruct (_ && _); [| eauto].
      destruct (time_sleep _ _) eqn:E; [eauto | eauto].
Qed.

Lemma google_pages_returns env delays m pages :
  (forall n, exists k, settles (http env (n + k)%nat) = true) ->
  forall start results w,
    (101 - start <= 10 * Z.of_nat pages)%Z ->
    exists fuel, is_Some (google_pages pages fuel env delays m start results w).
Proof.
  intros Henv. induction pages as [|pages IH]; intros start results w Hp; simpl.
  - exists 0%nat. destruct (Z.leb_spec start 91); [lia |].
    rewrite andb_false_r. eauto.
  - destruct (_ && _); [| exists 0%nat; eauto].
    destruct (Henv (http_calls w)) as [k Hk].
    destruct (google_attempts_returns env delays k (S k) 0 results w Hk)
      as [[[res|e] w1] E]; [lia | |].
    + destruct (IH (start + 10)%Z res w1) as [fuel2 [x Hx]]; [lia |].
      exists (max (S k) fuel2).
      rewrite (google_attempts_mono _ _ _ _ _ _ _ _ (Nat.le_max_l _ _) E).
      destruct (m <=? len res)%Z; [eauto |].
      rewrite (google_pages_mono _ _ _ _ _ _ _ _ _ _ (Nat.le_max_r _ _) Hx). eauto.
    + exists (S k). rewrite E. eauto.
Qed.

(** Against a service that does not answer 429/503/timeouts for ever, some
    amount of fuel lets [query] finish. *)
Lemma google_query_returns env g w kw m :
  (forall n, exists k, settles (http env (n + k)%nat) = true) ->
  exists fuel, is_Some (google_query fuel env g w kw m).
Proof.
  intros Henv. unfold google_query.
  destruct (negb (can_continue _)); [exists 0%nat; eauto |].
  destruct (negb (_ && _)); [exists 0%nat; eauto |].
  destruct (google_pages_returns env (_delays (g_base g)) m 10 Henv 1 [] w)
    as [fuel [[[res|e] w1] E]]; [lia | |]; exists fuel; rewrite E; eauto.
Qed.

(** *** Single steps of the two retry loops *)

Lemma time_sleep_nonneg d w : (0 <= d)%Q -> time_sleep d w = Some (log (Slept d) w).
Proof. intros H. unfold time_sleep. now apply Qle_bool_iff in H as ->. Qed.

Lemma clamped_index (delays : list Q) attempt :
  (0 <= attempt < len delays)%Z ->
  Z.min (attempt + 1 - 1) (len delays - 1) = attempt /\
  ((0 <=? attempt) && (attempt <? len delays))%Z = true.
Proof.
  intros H. split; [lia |].
  apply andb_true_intro. split; [apply Z.leb_le | apply Z.ltb_lt]; lia.
Qed.

Lemma google_attempts_backoff fuel env delays attempt results w code items :
  http env (http_calls w) = Response code items ->
  code = 429%Z \/ code = 503%Z ->
  (0 <= attempt < len delays)%Z ->
  (0 <= delay_at delays attempt)%Q ->
  google_attempts (S fuel) env delays attempt results w =
  google_attempts fuel env delays (attempt + 1) results
    (log (Slept (delay_at delays attempt)) (requested w)).
Proof.
  intros Hr Hc Ha Hd. simpl. rewrite Hr.
  destruct (clamped_index delays attempt Ha) as [-> ->].
  rewrite (time_sleep_nonneg _ _ Hd). now destruct Hc as [-> | ->].
Qed.

Lemma google_attempts_page fuel env delays attempt results w its :
  http env (http_calls w) = Response 200 (Some its) ->
  google_attempts (S fuel) env delays attempt results w =
  Some (Broke (append_links results its), requested w).
Proof. intros Hr. simpl. now rewrite Hr. Qed.

Lemma ddg_attempts_backoff fuel env delays attempt results w :
  raises (ddgs_text env (ddgs_runs w)) = true ->
  (0 <= attempt < len delays)%Z ->
  (0 <= delay_at delays attempt)%Q ->
  ddg_attempts (S fuel) env delays attempt results w =
  ddg_attempts fuel env delays (attempt + 1)
    (append_urls results (yielded (ddgs_text env (ddgs_runs w))))
    (log (Slept (delay_at delays attempt)) (searched w)).
Proof.
  intros Hr Ha Hd. simpl. rewrite Hr.
  destruct (Z.leb_spec (attempt + 1) (len delays)); [| lia].
  replace (attempt + 1 - 1)%Z with attempt by lia.
  now rewrite (time_sleep_nonneg _ _ Hd).
Qed.


(** The first two delays of a provider that may try three times. *)
Lemma backoff_delays_two base max_s attempts :
  (3 <= attempts)%Z ->
  exists rest,
    backoff_delays base max_s attempts
    = base :: Qmin max_s (Qred (base * 2)) :: rest.
Proof.
  intros H. unfold backoff_delays.
  destruct (Z.to_nat (Z.max 0 (attempts - 1))) as [|[|n]] eqn:E; [lia | lia |].
  simpl. eauto.
Qed.


(** *** Two scenarios *)

(** The first page of a call fills [max_results]: one request. *)
Lemma google_query_first_page fuel env g w kw m its :
  can_continue (g_base g) = true ->
  api_key g <> "" -> cx g <> "" ->
  http env (http_calls w) = Response 200 (Some its) ->
  (1 <= m <= len (append_links [] its))%Z ->
  google_query (S fuel) env g w kw m =
  Some (Returned (py_take m (append_links [] its)), g_counted g, requested w).
Proof.
  intros Hq Hk%String.eqb_neq Hx%String.eqb_neq Hr Hm.
  unfold google_query. rewrite Hq, Hk, Hx. cbn [negb andb].
  cbn [google_pages]. change (len []) with 0%Z.
  destruct (Z.ltb_spec 0 m); [| lia]. cbn [andb Z.leb Z.compare Pos.compare Pos.compare_cont].
  rewrite (google_attempts_page _ _ _ _ _ _ _ Hr).
  destruct (Z.leb_spec m (len (append_links [] its))); [done | lia].
Qed.

(** Two 429 answers, then a page that fills [max_results]: three requests,
    two backoff sleeps, one count. *)
Lemma google_query_two_429_then_200 fuel env g w kw m i1 i2 its :
  can_continue (g_base g) = true ->
  api_key g <> "" -> cx g <> "" ->
  (3 <= retry_attempts (g_base g))%Z ->
  (0 <= backoff_base_seconds (g_base g))%Q ->
  (0 <= backoff_max_seconds (g_base g))%Q ->
  http env (http_calls w) = Response 429 i1 ->
  http env (S (http_calls w)) = Response 429 i2 ->
  http env (S (S (http_calls w))) = Response 200 (Some its) ->
  (1 <= m <= len (append_links [] its))%Z ->
  exists d0 d1,
    google_query (S (S (S fuel))) env g w kw m =
    Some (Returned (py_take m (append_links [] its)), g_counted g,
          requested (log (Slept d1) (requested (log (Slept d0) (requested w))))).
Proof.
  intros Hq Hk%String.eqb_neq Hx%String.eqb_neq Hn Hb Hmax H1 H2 H3 Hm.
  destruct (backoff_delays_two (backoff_base_seconds (g_base g))
              (backoff_max_seconds (g_base g)) _ Hn) as [rest Hd].
  unfold google_query, _delays. rewrite Hq, Hk, Hx, Hd. clear Hd.
  set (d0 := backoff_base_seconds (g_base g)) in *.
  set (d1 := Qmin (backoff_max_seconds (g_base g)) (Qred (d0 * 2))) in *.
  assert (0 <= d1)%Q as Hd1.
  { pose proof (Qred_correct (d0 * 2)) as Hred. unfold d1.
    destruct (Q.min_spec (backoff_max_seconds (g_base g)) (Qred (d0 * 2)))
      as [[_ ->]|[_ ->]]; [done |]. rewrite Hred. lra. }
  exists d0, d1.
  cbn [negb andb]. cbn [google_pages]. change (len []) with 0%Z.
  destruct (Z.ltb_spec 0 m); [| lia]. cbn [andb Z.leb Z.compare Pos.compare Pos.compare_cont].
  assert (len (d0 :: d1 :: rest) = 2 + len rest)%Z as Hlen
    by (unfold len; simpl length; lia).
  rewrite (google_attempts_backoff _ _ _ 0 _ _ _ _ H1);
    [| auto | unfold len in *; lia | exact Hb].
  rewrite (google_attempts_backoff _ _ _ (0 + 1) _
             (log (Slept _) (requested w)) _ _ H2);
    [| auto | unfold len in *; lia | exact Hd1].
  rewrite (google_attempts_page _ _ _ _ _
             (log (Slept _) (requested (log (Slept _) (requested w)))) _ H3).
  destruct (Z.leb_spec m (len (append_links [] its))); [done | lia].
Qed.


(** *** Calls that come back with a value *)

Lemma backoff_loop_nonneg max_s n cur :
  (0 <= max_s)%Q -> (0 <= cur)%Q -> Forall (Qle 0) (backoff_loop max_s n cur).
Proof.
  intros Hm. revert cur. induction n as [|n IH]; intros cur Hc; simpl; [done |].
  constructor; [done |]. apply IH.
  pose proof (Qred_correct (cur * 2)) as Hred.
  destruct (Q.min_spec max_s (Qred (cur * 2))) as [[_ ->]|[_ ->]]; [done |].
  rewrite Hred. lra.
Qed.

Lemma _delays_nonneg p : nonneg_backoff p -> Forall (Qle 0) (_delays p).
Proof. intros [Hb Hm]. now apply backoff_loop_nonneg. Qed.

Lemma time_sleep_delay_at delays i w :
  Forall (Qle 0) delays ->
  time_sleep (delay_at delays i) w = Some (log (Slept (delay_at delays i)) w).
Proof.
  intros Hd. apply time_sleep_nonneg. unfold delay_at.
  destruct (delays !! Z.to_nat i) as [d|] eqn:E; simpl; [| done].
  rewrite Forall_forall in Hd. apply Hd. eapply list_elem_of_lookup_2, E.
Qed.

Lemma google_attempts_breaks fuel env delays attempt results w e w' :
  Forall (Qle 0) delays ->
  google_attempts fuel env delays attempt results w = Some (e, w') ->
  exists res, e = Broke res.
Proof.
  intros Hd. revert attempt w.
  induction fuel as [|fuel IH]; intros attempt w; simpl; [done |].
  rewrite !(time_sleep_delay_at _ _ _ Hd).
  destruct (http env (http_calls w)) as [code items| |].
  - destruct (code =? 200)%Z; [destruct items; intros [= <- <-]; eauto |].
    destruct ((code =? 429) || (code =? 503))%Z; [| intros [= <- <-]; eauto].
    destruct (_ && _); [apply IH | intros [= <- <-]; eauto].
  - destruct (_ && _); [apply IH | intros [= <- <-]; eauto].
  - intros [= <- <-]; eauto.
Qed.

Lemma google_pages_breaks pages fuel env delays m start results w e w' :
  Forall (Qle 0) delays ->
  google_pages pages fuel env delays m start results w = Some (e, w') ->
  exists res, e = Broke res.
Proof.
  intros Hd. revert start results w.
  induction pages as [|pages IH]; intros start results w; simpl.
  - destruct (_ && _); [done | intros [= <- <-]; eauto].
  - destruct (_ && _); [| intros [= <- <-]; eauto].
    destruct (google_attempts fuel _ _ _ _ _) as [[e1 w1]|] eqn:E; [| done].
    destruct (google_attempts_breaks _ _ _ _ _ _ _ _ Hd E) as [res ->].
    destruct (m <=? len res)%Z; [intros [= <- <-]; eauto | apply IH].
Qed.

Lemma ddg_attempts_breaks fuel env delays attempt results w e w' :
  Forall (Qle 0) delays ->
  ddg_attempts fuel env delays attempt results w = Some (e, w') ->
  exists res, e = Broke res.
Proof.
  intros Hd. revert attempt results w.
  induction fuel as [|fuel IH]; intros attempt results w; simpl; [done |].
  rewrite (time_sleep_delay_at _ _ _ Hd).
  destruct (raises _); [| intros [= <- <-]; eauto].
  destruct (_ <=? _)%Z; [apply IH | intros [= <- <-]; eauto].
Qed.

Lemma query_no_raise fuel env p w kw m r p' w' :
  nonneg_backoff (base p) ->
  query fuel env p w kw m = Some (r, p', w') ->
  exists out, r = Returned out.
Proof.
  intros Hd. apply _delays_nonneg in Hd. destruct p as [g|d]; simpl in *.
  - unfold google_query. destruct (negb (can_continue _)); [intros [= <- <- <-]; eauto |].
    destruct (negb (_ && _)); [intros [= <- <- <-]; eauto |].
    destruct (google_pages _ _ _ _ _ _ _ _) as [[e w1]|] eqn:E; [| done].
    destruct (google_pages_breaks _ _ _ _ _ _ _ _ _ _ Hd E) as [res ->].
    intros [= <- <- <-]; eauto.
  - unfold ddg_query. destruct (negb (can_continue _)); [intros [= <- <- <-]; eauto |].
    destruct (negb (ddgs_available env)); [intros [= <- <- <-]; eauto |].
    destruct (ddg_attempts _ _ _ _ _ _) as [[e w1]|] eqn:E; [| done].
    destruct (ddg_attempts_breaks _ _ _ _ _ _ _ _ Hd E) as [res ->].
    intros [= <- <- <-]; eauto.
Qed.

(** Against a service that does not answer 429/503/timeouts for ever, and
    with backoff settings that are not negative, a call of [query] comes
    back with a value. *)
Lemma query_returns env p w kw m :
  nonneg_backoff (base p) ->
  (forall n, exists k, settles (http env (n + k)%nat) = true) ->
  exists fuel out p' w', query fuel env p w kw m = Some (Returned out, p', w').
Proof.
  intros Hd Henv.
  assert (exists fuel, is_Some (query fuel env p w kw m)) as [fuel [[[r p'] w'] E]].
  { destruct p as [g|d]; simpl.
    - destruct (google_query_returns env g w kw m Henv) as [fuel [[[r g'] w'] E]].
      exists fuel. rewrite E. eauto.
    - exists 0%nat.
      destruct (ddg_query_total env d w kw m) as [[[r d'] w'] E]. rewrite E. eauto. }
  destruct (query_no_raise _ _ _ _ _ _ _ _ _ Hd E) as [out ->]. eauto.
Qed.

(** *** Sequences of calls on one provider *)

Lemma after_call_threshold r p :
  daily_quota_threshold (after_call r p) = daily_quota_threshold p.
Proof. now destruct r. Qed.

Lemma query_keeps_quota fuel env p w kw m r p' w' :
  query fuel env p w kw m = Some (r, p', w') ->
  daily_quota_threshold (base p') = daily_quota_threshold (base p) /\
  ((queries_made (base p) <= daily_quota_threshold (base p))%Z ->
   (queries_made (base p') <= daily_quota_threshold (base p))%Z).
Proof.
  intros Hq. destruct (can_continue (base p)) eqn:Hc.
  - rewrite (query_under_quota _ _ _ _ _ _ _ _ _ Hc Hq), after_call_threshold.
    split; [done |]. intros _. unfold can_continue in Hc. apply Z.ltb_lt in Hc.
    destruct r; simpl; lia.
  - rewrite (query_over_quota _ _ _ _ _ _ Hc) in Hq. now injection Hq as <- <- <-.
Qed.

Lemma query_all_keeps_quota fuel env calls :
  forall p w rs p' w',
    query_all fuel env p w calls = Some (rs, p', w') ->
    daily_quota_threshold (base p') = daily_quota_threshold (base p) /\
    ((queries_made (base p) <= daily_quota_threshold (base p))%Z ->
     (queries_made (base p') <= daily_quota_threshold (base p))%Z).
Proof.
  induction calls as [|[kw m] calls IH]; intros p w rs p' w'; simpl.
  - now intros [= <- <- <-].
  - destruct (query fuel env p w kw m) as [[[r p1] w1]|] eqn:E1; [| done].
    destruct (query_all fuel env p1 w1 calls) as [[[rs2 p2] w2]|] eqn:E2; [| done].
    intros [= <- <- <-].
    destruct (query_keeps_quota _ _ _ _ _ _ _ _ _ E1) as [Ht1 Hq1].
    destruct (IH _ _ _ _ _ E2) as [Ht2 Hq2].
    split; [congruence |]. intros H. rewrite <- Ht1. apply Hq2. rewrite Ht1. auto.
Qed.

(** C6, as the specification states it, fails: the counter is incremented
    on the last line of [query], so a call that an exception leaves is not
    counted.  With a threshold of 1, a negative backoff setting and a first
    request that times out, the first call dies of the [ValueError] of
    [time.sleep]; the counter is still 0 and the second call is not turned
    away: it sends a request and returns a result. *)
Lemma first_call_that_raises_is_not_counted :
  let env := Tests.mock_http [NetworkError] (Tests.ok ["https://a.com"]) in
  let g := {| g_base := {| name := "google_cse"; queries_made := 0;
                           daily_quota_threshold := 1; retry_attempts := 2;
                           backoff_base_seconds := (-1 # 1)%Q;
                           backoff_max_seconds := (8 # 1)%Q |};
              api_key := "fake"; cx := "cx123" |} in
  query 1 env (Google g) world0 "one" 1
    = Some (Raised "ValueError", Google g, requested world0) /\
  queries_made (base (Google g)) = 0%Z /\
  query 1 env (Google g) (requested world0) "two" 1
    = Some (Returned ["https://a.com"], Google (g_counted g),
            requested (requested world0)).
Proof. cbv zeta. repeat split; vm_compute; reflexivity. Qed.

(** C6, amended: the quota is a hard ceiling.  With a threshold of 1 and a
    fresh counter, a first call that returns leaves the counter at 1, and
    every further call returns the empty sequence and changes nothing, the
    outside world included.  Whatever calls are made, and however each of
    them ends, a counter that is within the threshold stays within it. *)
Theorem quota_is_a_hard_ceiling :
  (forall fuel env p w kw1 m1 out1 p1 w1,
      daily_quota_threshold (base p) = 1%Z ->
      queries_made (base p) = 0%Z ->
      query fuel env p w kw1 m1 = Some (Returned out1, p1, w1) ->
      queries_made (base p1) = 1%Z /\
      forall fuel' kw2 m2,
        query fuel' env p1 w1 kw2 m2 = Some (Returned [], p1, w1)) /\
  (forall fuel env p w calls rs p' w',
      query_all fuel env p w calls = Some (rs, p', w') ->
      (queries_made (base p) <= daily_quota_threshold (base p))%Z ->
      (queries_made (base p') <= daily_quota_threshold (base p'))%Z).
Proof.
  split.
  - intros fuel env p w kw1 m1 out1 p1 w1 Ht Hq Hcall.
    assert (can_continue (base p) = true) as Hc
      by (unfold can_continue; rewrite Ht, Hq; reflexivity).
    pose proof (query_under_quota _ _ _ _ _ _ _ _ _ Hc Hcall) as Hb.
    assert (queries_made (base p1) = 1%Z) as H1 by (rewrite Hb; simpl; lia).
    split; [exact H1 |]. intros fuel' kw2 m2. apply query_over_quota.
    unfold can_continue. rewrite H1, Hb. simpl. rewrite Ht. reflexivity.
  - intros fuel env p w calls rs p' w' Hall Hle.
    destruct (query_all_keeps_quota _ _ _ _ _ _ _ _ Hall) as [-> Hq]. auto.
Qed.

Lemma quota_is_a_hard_ceiling_witness :
  let env := Tests.mock_http [] (Tests.ok ["https://a.com"]) in
  let p := Google (Tests.google_cfg 1) in
  let p1 := Google (g_counted (Tests.google_cfg 1)) in
  let w1 := requested world0 in
  query 1 env p world0 "one" 1 = Some (Returned ["https://a.com"], p1, w1) /\
  (queries_made (base p1) = 1%Z /\
   forall fuel' kw2 m2, query fuel' env p1 w1 kw2 m2 = Some (Returned [], p1, w1)) /\
  (queries_made (base p1) <= daily_quota_threshold (base p1))%Z.
Proof.
  cbv zeta. split; [reflexivity |]. split.
  - apply (proj1 quota_is_a_hard_ceiling 1%nat
             (Tests.mock_http [] (Tests.ok ["https://a.com"]))
             (Google (Tests.google_cfg 1)) world0 "one" 1%Z ["https://a.com"]);
      reflexivity.
  - apply (proj2 quota_is_a_hard_ceiling 1%nat
             (Tests.mock_http [] (Tests.ok ["https://a.com"]))
             (Google (Tests.google_cfg 1)) world0 [("one", 1%Z); ("two", 1%Z)]
             [Returned ["https://a.com"]; Returned []]
             (Google (g_counted (Tests.google_cfg 1))) (requested world0));
      [reflexivity | simpl; lia].
Defined.

(** C7, as the specification states it, fails: a call made at or over the
    quota returns before the counter is touched. *)
Lemma query_over_quota_is_not_counted :
  ~ (forall fuel env p w kw m out p' w',
        query fuel env p w kw m = Some (Returned out, p', w') ->
        queries_made (base p') = (queries_made (base p) + 1)%Z).
Proof.
  intros H.
  specialize (H 1%nat (Tests.mock_http [] (Tests.ok ["https://a.com"]))
                (Google (g_counted (Tests.google_cfg 1))) world0 "two" 1%Z
                [] _ _ eq_refl).
  simpl in H. discriminate.
Qed.

(** C7, amended: a call of [query] made under quota that returns adds
    exactly one to the provider's counter, whatever was answered and however
    often the request was retried, and it does return whenever the service
    does not answer 429/503/timeouts for ever and the backoff settings are
    not negative; a call at or over quota returns the empty sequence and
    leaves the counter as it is.  In particular, after two 429 answers and a
    200 answer whose page fills [max_results], with a retry budget of at
    least 3 and non-negative backoff settings, [query] returns that page's
    results after three requests and the counter has grown by one. *)
Theorem query_counts_once_under_quota :
  (forall fuel env p w kw m out p' w',
      can_continue (base p) = true ->
      query fuel env p w kw m = Some (Returned out, p', w') ->
      queries_made (base p') = (queries_made (base p) + 1)%Z) /\
  (forall env p w kw m,
      can_continue (base p) = true ->
      nonneg_backoff (base p) ->
      (forall n, exists k, settles (http env (n + k)%nat) = true) ->
      exists fuel out p' w',
        query fuel env p w kw m = Some (Returned out, p', w') /\
        queries_made (base p') = (queries_made (base p) + 1)%Z) /\
  (forall fuel env p w kw m,
      can_continue (base p) = false ->
      query fuel env p w kw m = Some (Returned [], p, w)) /\
  (forall fuel env g w kw m i1 i2 its,
      can_continue (g_base g) = true ->
      api_key g <> "" -> cx g <> "" ->
      (3 <= retry_attempts (g_base g))%Z ->
      nonneg_backoff (g_base g) ->
      http env (http_calls w) = Response 429 i1 ->
      http env (S (http_calls w)) = Response 429 i2 ->
      http env (S (S (http_calls w))) = Response 200 (Some its) ->
      (1 <= m <= len (append_links [] its))%Z ->
      exists p' w',
        query (S (S (S fuel))) env (Google g) w kw m =
          Some (Returned (py_take m (append_links [] its)), p', w') /\
        queries_made (base p') = (queries_made (g_base g) + 1)%Z /\
        http_calls w' = (http_calls w + 3)%nat).
Proof.
  assert (forall fuel env p w kw m out p' w',
             can_continue (base p) = true ->
             query fuel env p w kw m = Some (Returned out, p', w') ->
             queries_made (base p') = (queries_made (base p) + 1)%Z) as Hcount.
  { intros fuel env p w kw m out p' w' Hc Hq.
    now rewrite (query_under_quota _ _ _ _ _ _ _ _ _ Hc Hq). }
  split; [exact Hcount | split; [| split]].
  - intros env p w kw m Hc Hd Henv.
    destruct (query_returns env p w kw m Hd Henv) as (fuel & out & p' & w' & E).
    exists fuel, out, p', w'. split; [exact E | exact (Hcount _ _ _ _ _ _ _ _ _ Hc E)].
  - intros. now apply query_over_quota.
  - intros fuel env g w kw m i1 i2 its Hc Hk Hx Hn [Hb Hmax] H1 H2 H3 Hm.
    destruct (google_query_two_429_then_200 fuel env g w kw m i1 i2 its
                Hc Hk Hx Hn Hb Hmax H1 H2 H3 Hm) as (d0 & d1 & E).
    eexists _, _. simpl. rewrite E. split; [reflexivity |].
    split; [reflexivity | simpl; lia].
Qed.

Lemma query_counts_once_under_quota_witness :
  let env := Tests.mock_http [Response 429 None; Response 429 None;
                              Tests.ok ["https://a.com"]] OtherError in
  exists p' w',
    query 3 env (Google (Tests.google_cfg 2)) world0 "kw" 1 =
      Some (Returned ["https://a.com"], p', w') /\
    queries_made (base p') = 1%Z /\ http_calls w' = 3%nat.
Proof.
  apply (proj2 (proj2 (proj2 query_counts_once_under_quota)) 0%nat
           (Tests.mock_http [Response 429 None; Response 429 None;
                             Tests.ok ["https://a.com"]] OtherError)
           (Tests.google_cfg 2) world0 "kw" 1%Z None None
           [Item (Some "https://a.com") None]);
    try reflexivity; try discriminate.
  - split; discriminate.
  - split; discriminate.
Defined.



End ProvidersFacts.

(** ** The discovery run *)

Module DiscoverFacts.
Import Providers ProvidersFacts Discover.

(** *** Where the output is touched in a run *)

Lemma discovers_refl w : discovers w w.
Proof. exists []. split; [now rewrite app_nil_r | constructor]. Qed.

Lemma discovers_trans w1 w2 w3 : discovers w1 w2 -> discovers w2 w3 -> discovers w1 w3.
Proof.
  intros (e1 & E1 & H1) (e2 & E2 & H2). exists (e1 ++ e2)%list.
  split; [now rewrite E2, E1, app_assoc | now apply Forall_app].
Qed.

Lemma discovers_log e w : discovery_event e -> discovers w (log e w).
Proof. intros He. exists [e]. split; [done | now constructor]. Qed.

Lemma discovers_requested w : discovers w (requested w).
Proof. exists [Requested]. split; [done | now constructor]. Qed.

Lemma discovers_searched w : discovers w (searched w).
Proof. exists [Searched]. split; [done | now constructor]. Qed.

Lemma discovers_sleep d w w' : time_sleep d w = Some w' -> discovers w w'.
Proof.
  unfold time_sleep. destruct (Qle_bool 0 d); [| done].
  intros [= <-]. now apply discovers_log.
Qed.

Lemma google_attempts_discovers fuel env delays attempt results w e w' :
  google_attempts fuel env delays attempt results w = Some (e, w') -> discovers w w'.
Proof.
  revert attempt w. induction fuel as [|fuel IH]; intros attempt w; simpl; [done |].
  pose proof (discovers_requested w) as Hr. fold (requested w).
  assert (forall d, match time_sleep d (requested w) with
                    | Some w1 => discovers w w1
                    | None => True
                    end) as Hs.
  { intros d. destruct (time_sleep d (requested w)) eqn:E; [| done].
    eapply discovers_trans; [exact Hr | exact (discovers_sleep _ _ _ E)]. }
  destruct (http env (http_calls w)) as [code items| |].
  - destruct (code =? 200)%Z; [destruct items; now intros [= <- <-] |].
    destruct ((code =? 429) || (code =? 503))%Z; [| now intros [= <- <-]].
    destruct (_ && _); [| now intros [= <- <-]].
    match goal with |- context [time_sleep ?d _] => specialize (Hs d) end.
    destruct (time_sleep _ _); [| now intros [= <- <-]].
    intros H. eapply discovers_trans; [exact Hs | exact (IH _ _ H)].
  - destruct (_ && _); [| now intros [= <- <-]].
    match goal with |- context [time_sleep ?d _] => specialize (Hs d) end.
    destruct (time_sleep _ _); [| now intros [= <- <-]].
    intros H. eapply discovers_trans; [exact Hs | exact (IH _ _ H)].
  - now intros [= <- <-].
Qed.

Lemma google_pages_discovers pages fuel env delays m start results w e w' :
  google_pages pages fuel env delays m start results w = Some (e, w') -> discovers w w'.
Proof.
  revert start results w. induction pages as [|pages IH]; intros start results w; simpl.
  - destruct (_ && _); [done |]. intros [= <- <-]. apply discovers_refl.
  - destruct (_ && _); [| intros [= <- <-]; apply discovers_refl].
    destruct (google_attempts fuel _ _ _ _ _) as [[e1 w1]|] eqn:E; [| done].
    apply google_attempts_discovers in E.
    destruct e1 as [res|x]; [| now intros [= <- <-]].
    destruct (m <=? len res)%Z; [now intros [= <- <-] |].
    intros H. eapply discovers_trans; [exact E | exact (IH _ _ _ H)].
Qed.

Lemma ddg_attempts_discovers fuel env delays attempt results w e w' :
  ddg_attempts fuel env delays attempt results w = Some (e, w') -> discovers w w'.
Proof.
  revert attempt results w.
  induction fuel as [|fuel IH]; intros attempt results w; simpl; [done |].
  pose proof (discovers_searched w) as Hr. fold (searched w).
  destruct (raises _); [| now intros [= <- <-]].
  destruct (_ <=? _)%Z; [| now intros [= <- <-]].
  destruct (time_sleep _ _) eqn:E; [| now intros [= <- <-]].
  intros H. eapply discovers_trans; [exact Hr |].
  eapply discovers_trans; [exact (discovers_sleep _ _ _ E) | exact (IH _ _ _ H)].
Qed.

Lemma query_discovers fuel env p w kw m r p' w' :
  query fuel env p w kw m = Some (r, p', w') -> discovers w w'.
Proof.
  destruct p as [g|d]; simpl.
  - unfold google_query.
    destruct (negb (can_continue _)); [intros [= <- <- <-]; apply discovers_refl |].
    destruct (negb (_ && _)); [intros [= <- <- <-]; apply discovers_refl |].
    destruct (google_pages _ _ _ _ _ _ _ _) as [[e w1]|] eqn:E; [| done].
    apply google_pages_discovers in E. destruct e; now intros [= <- <- <-].
  - unfold ddg_query.
    destruct (negb (can_continue _)); [intros [= <- <- <-]; apply discovers_refl |].
    destruct (negb (ddgs_available env)); [intros [= <- <- <-]; apply discovers_refl |].
    assert (discovers w (_respect_ddg_delay d w)) as H0.
    { unfold _respect_ddg_delay. destruct (ddg_crawl_delay d) as [c|];
        [| apply discovers_refl].
      destruct (Qlt_le_dec 0 c); [now apply discovers_log | apply discovers_refl]. }
    destruct (ddg_attempts _ _ _ _ _ _) as [[e w1]|] eqn:E; [| done].
    apply ddg_attempts_discovers in E.
    destruct e; intros [= <- <- <-]; eapply discovers_trans; eassumption.
Qed.

Lemma each_provider_discovers fuel env kw m todo :
  forall visited domains u w r w',
    each_provider fuel env kw m todo visited domains u w = Some (r, w') ->
    discovers w w'.
Proof.
  induction todo as [|prov todo IH]; intros visited domains u w r w'; simpl.
  - intros [= <- <-]. apply discovers_refl.
  - destruct (negb (can_continue _)); [apply IH |].
    destruct (query fuel env prov w kw m) as [[[r1 p1] w1]|] eqn:E; [| done].
    apply query_discovers in E. destruct r1 as [res|x]; [| now intros [= <- <-]].
    intros H. eapply discovers_trans; [exact E | exact (IH _ _ _ _ _ _ H)].
Qed.

Lemma each_keyword_discovers fuel env m kws :
  forall st w r w',
    each_keyword fuel env kws m st w = Some (r, w') -> discovers w w'.
Proof.
  induction kws as [|kw kws IH]; intros st w r w'; simpl.
  - intros [= <- <-]. apply discovers_refl.
  - destruct (each_provider _ _ _ _ _ _ _ _ _) as [[r1 w1]|] eqn:E; [| done].
    apply each_provider_discovers in E. destruct r1 as [st1|x]; [| now intros [= <- <-]].
    intros H. eapply discovers_trans; [exact E | exact (IH _ _ _ _ H)].
Qed.

(** In every run of [main] the directory is made and the file written, if
    at all, as the last two steps, after every request of the run: there is
    no path on which the output is touched before discovery. *)
Lemma main_output_last fuel env a c w r w' :
  main fuel env a c w = Some (r, w') ->
  exists w1, discovers w w1 /\
    (w' = w1 \/ exists lines, w' = log (Wrote lines) (log MadeDirs w1)).
Proof.
  unfold main. intros Hmain.
  destruct (keywords c) as [|kw kws] eqn:Ek.
  { injection Hmain as <- <-. exists w. split; [apply discovers_refl | now left]. }
  destruct (selected a c) as [|prov provs] eqn:Es.
  { injection Hmain as <- <-. exists w. split; [apply discovers_refl | now left]. }
  destruct (each_keyword _ _ _ _ _ _) as [[r1 w1]|] eqn:E; [| done].
  apply each_keyword_discovers in E. exists w1. split; [exact E |].
  destruct r1 as [st|x]; [| injection Hmain as <- <-; now left].
  destruct (arg_dry_run a); [injection Hmain as <- <-; now left |].
  unfold write_output in Hmain.
  destruct (output_writable env); injection Hmain as <- <-; eauto.
Qed.

(** *** A run whose output directory cannot be written *)

(** C8 fails on the code: [main] has no pre-check.  The output directory is
    made, and the file opened, only after the whole keyword loop.  With an
    output path that cannot be written the search request is issued first
    and the run then dies of the [PermissionError], its result lost; with a
    writable one the directory is made after the request. *)
Theorem main_touches_output_after_discovery :
  (exists w, main 1 (one_page false) write_one one_keyword world0
             = Some (Crashed "PermissionError", w)
             /\ trace w = [Requested]) /\
  (exists w, main 1 (one_page true) write_one one_keyword world0
             = Some (Finished ["a.com"], w)
             /\ trace w = [Requested; MadeDirs; Wrote ["a.com" +:+ String "010" ""]]).
Proof.
  split; eexists; (split; [vm_compute; reflexivity | reflexivity]).
Qed.

End DiscoverFacts.

(** ** The audit runner *)

Module AuditFacts.
Import Providers Audit.

(** *** The termination algorithm *)

Lemma send_fields lethal p s :
  children_of (snd (send lethal p s)) = children_of s /\
  heeds_terminate (snd (send lethal p s)) = heeds_terminate s /\
  protected (snd (send lethal p s)) = protected s /\
  running (snd (send lethal p s)) ⊆ running s.
Proof.
  unfold send. destruct (decide (p ∈ running s)); [| done].
  destruct (protected s p); [done |].
  destruct (lethal || heeds_terminate s p); simpl; [| done].
  repeat split. now intros x [? _]%elem_of_difference.
Qed.

Lemma kill_removes p s : protected s p = false -> p ∉ running (snd (kill p s)).
Proof.
  intros Hp. unfold kill, send. destruct (decide (p ∈ running s)); [| done].
  rewrite Hp. simpl. intros [_ Hne]%elem_of_difference.
  now apply Hne, elem_of_singleton.
Qed.

Lemma each_ignoring_fields lethal procs s :
  children_of (each_ignoring (send lethal) procs s) = children_of s /\
  heeds_terminate (each_ignoring (send lethal) procs s) = heeds_terminate s /\
  protected (each_ignoring (send lethal) procs s) = protected s /\
  running (each_ignoring (send lethal) procs s) ⊆ running s.
Proof.
  revert s. induction procs as [|p procs IH]; intros s; [done |].
  unfold each_ignoring in *. simpl.
  destruct (IH (snd (send lethal p s))) as (-> & -> & -> & Hr).
  destruct (send_fields lethal p s) as (-> & -> & -> & Hr').
  repeat split. etrans; eassumption.
Qed.

Lemma each_ignoring_kill procs s c :
  c ∈ procs -> protected s c = false ->
  c ∉ running (each_ignoring kill procs s).
Proof.
  revert s. induction procs as [|p procs IH]; intros s Hin Hp.
  - now apply not_elem_of_nil in Hin.
  - unfold each_ignoring in *. simpl.
    destruct (each_ignoring_fields true procs (snd (kill p s))) as (_ & _ & _ & Hr).
    destruct (send_fields true p s) as (_ & _ & Hprot & _).
    apply elem_of_cons in Hin as [-> | Hin].
    + pose proof (kill_removes p s Hp) as Hgone. intros Hin. apply Hgone, Hr, Hin.
    + apply IH; [done |]. unfold kill. now rewrite Hprot.
Qed.

(** [kill_chrome_tree] swallows every error its steps can raise. *)
Lemma kill_chrome_tree_returns p s : fst (kill_chrome_tree p s) = Ok tt.
Proof.
  unfold kill_chrome_tree, psutil_Process. destruct (decide (p ∈ running s)); [| done].
  simpl. set (s2 := each_ignoring kill _ _).
  unfold terminate, send. destruct (decide (p ∈ running s2)); [| done].
  destruct (protected s2 p); [done |].
  destruct (false || heeds_terminate s2 p); simpl;
    unfold proc_wait; now destruct (decide _).
Qed.

Lemma kill_chrome_tree_fields p s :
  children_of (snd (kill_chrome_tree p s)) = children_of s /\
  heeds_terminate (snd (kill_chrome_tree p s)) = heeds_terminate s /\
  protected (snd (kill_chrome_tree p s)) = protected s /\
  running (snd (kill_chrome_tree p s)) ⊆ running s.
Proof.
  unfold kill_chrome_tree, psutil_Process, terminate, kill.
  destruct (decide (p ∈ running s)); [| done]. simpl.
  set (kids := filter (fun c => c ∈ running s) (children_of s p)).
  set (s1 := each_ignoring (send false) kids s).
  set (s2 := each_ignoring (send true) (filter (fun c => c ∈ running s1) kids) s1).
  destruct (each_ignoring_fields false kids s) as (E1 & E2 & E3 & E4).
  destruct (each_ignoring_fields true (filter (fun c => c ∈ running s1) kids) s1)
    as (F1 & F2 & F3 & F4).
  fold s1 in E1, E2, E3, E4. fold s2 in F1, F2, F3, F4.
  destruct (send_fields false p s2) as (G1 & G2 & G3 & G4).
  destruct (send_fields true p (snd (send false p s2))) as (H1 & H2 & H3 & H4).
  assert (running s2 ⊆ running s) as Hsub by (etrans; eassumption).
  destruct (send false p s2) as [[[]|err] s3] eqn:E; simpl in *.
  - unfold proc_wait. destruct (decide (p ∈ running s3)); simpl.
    + repeat split; [congruence.. |]. etrans; [exact H4 |]. etrans; eassumption.
    + repeat split; [congruence.. |]. etrans; eassumption.
  - destruct err; simpl; (repeat split; [congruence.. |]); etrans; eassumption.
Qed.

(** A root that may be signalled does not survive [kill_chrome_tree]; and
    when the root exists, neither does any descendant that may be
    signalled. *)
Lemma kill_chrome_tree_reaps p s :
  (protected s p = false -> p ∉ running (snd (kill_chrome_tree p s))) /\
  (p ∈ running s ->
   forall c, c ∈ children_of s p -> protected s c = false ->
             c ∉ running (snd (kill_chrome_tree p s))).
Proof.
  unfold kill_chrome_tree, psutil_Process, terminate.
  destruct (decide (p ∈ running s)); [| done]. simpl.
  set (kids := filter (fun c => c ∈ running s) (children_of s p)).
  set (s1 := each_ignoring (send false) kids s).
  set (s2 := each_ignoring kill (filter (fun c => c ∈ running s1) kids) s1).
  destruct (each_ignoring_fields false kids s) as (_ & _ & E3 & E4).
  destruct (each_ignoring_fields true (filter (fun c => c ∈ running s1) kids) s1)
    as (_ & _ & F3 & F4).
  fold s1 in E3, E4. change (each_ignoring (send true) _ s1) with s2 in F3, F4.
  assert (forall c, c ∈ children_of s p -> protected s c = false ->
                    c ∉ running s2) as Hdead.
  { intros c Hc Hpc. destruct (decide (c ∈ running s1)) as [Hin|Hout].
    - apply each_ignoring_kill.
      + apply list_elem_of_filter. split; [done |].
        apply list_elem_of_filter. split; [apply E4, Hin | done].
      + now rewrite E3.
    - intros Hin. apply Hout, F4, Hin. }
  destruct (send_fields false p s2) as (_ & _ & G3 & G4).
  destruct (send false p s2) as [[[]|err] s3] eqn:E; simpl in *.
  - unfold proc_wait. destruct (decide (p ∈ running s3)) as [Hin|Hout]; simpl.
    + destruct (send_fields true p s3) as (_ & _ & _ & H4). unfold kill in *.
      split.
      * intros Hp. apply kill_removes. now rewrite G3, F3, E3.
      * intros _ c Hc Hpc Hin'. apply (Hdead c Hc Hpc), G4, H4, Hin'.
    + split; [done |]. intros _ c Hc Hpc Hin'. apply (Hdead c Hc Hpc), G4, Hin'.
  - assert (s3 = s2) as ->.
    { unfold send in E. destruct (decide (p ∈ running s2)); [| congruence].
      destruct (protected s2 p); [congruence |].
      destruct (false || heeds_terminate s2 p); congruence. }
    assert (forall e0, snd (match e0 with
                            | TimeoutExpired => (Raise e0, s2)
                            | _ => (Ok tt, s2)
                            end) = s2) as -> by (now intros []).
    split; [| auto]. intros Hp Hin.
    unfold send in E. destruct (decide (p ∈ running s2)); [| done].
    rewrite F3, E3, Hp in E. destruct (false || heeds_terminate s2 p); done.
Qed.

(** *** The sweep of the registry *)

Lemma sweep_fields pids s :
  protected (foldl (fun s pid => snd (kill_chrome_tree pid s)) s pids) = protected s /\
  running (foldl (fun s pid => snd (kill_chrome_tree pid s)) s pids) ⊆ running s.
Proof.
  revert s. induction pids as [|p pids IH]; intros s; [done |]. simpl.
  destruct (IH (snd (kill_chrome_tree p s))) as [-> Hr].
  destruct (kill_chrome_tree_fields p s) as (_ & _ & -> & Hr').
  split; [done | etrans; eassumption].
Qed.

Lemma sweep_reaps pids s pid :
  pid ∈ pids -> protected s pid = false ->
  pid ∉ running (foldl (fun s pid => snd (kill_chrome_tree pid s)) s pids).
Proof.
  revert s. induction pids as [|p pids IH]; intros s Hin Hp.
  - now apply not_elem_of_nil in Hin.
  - simpl. apply elem_of_cons in Hin as [-> | Hin].
    + destruct (sweep_fields pids (snd (kill_chrome_tree p s))) as [_ Hr].
      intros Hrun. apply (proj1 (kill_chrome_tree_reaps p s) Hp), Hr, Hrun.
    + apply IH; [done |].
      destruct (kill_chrome_tree_fields p s) as (_ & _ & -> & _). exact Hp.
Qed.

(** Run in one process, the handler empties that process's registry and
    leaves alive none of the registered pids that may be signalled. *)
Lemma signal_handler_sweeps st :
  fst (signal_handler st) = 0%Z /\
  CHROME_PIDS (snd (signal_handler st)) = ∅ /\
  forall pid, pid ∈ CHROME_PIDS st -> protected (table st) pid = false ->
              pid ∉ running (table (snd (signal_handler st))).
Proof.
  repeat split. intros pid Hin Hp. simpl.
  apply sweep_reaps; [| done]. now apply elem_of_elements.
Qed.

(** *** [run_lighthouse] always unregisters what it launched *)

Lemma handler_returns u pid e st :
  exists out,
    handler u pid e st =
      (Returned out,
       {| CHROME_PIDS := CHROME_PIDS st ∖ {[pid]};
          table := snd (kill_chrome_tree pid (table st)) |}) /\
    url out = u /\ success out = false /\
    (e = SubprocessTimeoutExpired -> error out = Some "Timeout after 60s").
Proof.
  unfold handler. pose proof (kill_chrome_tree_returns pid (table st)) as Hk.
  destruct (kill_chrome_tree pid (table st)) as [[[]|e'] s']; simpl in Hk; [| done].
  eexists. split; [reflexivity |]. simpl. repeat split. now intros ->.
Qed.

(** C2: [run_lighthouse] returns on every path, and when a process was
    launched its pid has left [CHROME_PIDS] by then (the rest of the registry
    is as before).  When the command does not exit within the timeout the
    outcome is [success = False] with error [Timeout after 60s], and the
    process table has been through [kill_chrome_tree] for that pid: the root
    and each descendant, if it may be signalled, is gone. *)
Theorem run_lighthouse_unregisters inv u st :
  exists out st',
    run_lighthouse inv u st = (Returned out, st') /\
    url out = u /\
    (forall pid, inv_launch inv = Launched pid ->
       (pid ∉ CHROME_PIDS st') /\
       CHROME_PIDS st' = CHROME_PIDS st ∖ {[pid]}) /\
    (forall pid after,
       inv_launch inv = Launched pid -> inv_wait inv = TimesOut after ->
       out = {| url := u; success := false; error := Some "Timeout after 60s" |} /\
       table st' = snd (kill_chrome_tree pid after) /\
       (protected after pid = false -> pid ∉ running (table st')) /\
       (pid ∈ running after ->
        forall c, c ∈ children_of after pid -> protected after c = false ->
                  c ∉ running (table st'))).
Proof.
  assert (forall (X : gset nat) pid,
             (pid ∉ (X ∪ {[pid]}) ∖ {[pid]}) /\
             (X ∪ {[pid]}) ∖ {[pid]} = X ∖ {[pid]}) as Hset.
  { intros X pid. split.
    - intros [_ Hne]%elem_of_difference. now apply Hne, elem_of_singleton.
    - apply set_eq. intros x.
      rewrite !elem_of_difference, elem_of_union, elem_of_singleton. tauto. }
  assert (forall (X : gset nat) pid,
             (pid ∉ ((X ∪ {[pid]}) ∖ {[pid]}) ∖ {[pid]}) /\
             ((X ∪ {[pid]}) ∖ {[pid]}) ∖ {[pid]} = X ∖ {[pid]}) as Hset2.
  { intros X pid. destruct (Hset X pid) as [_ ->]. split.
    - intros [_ Hne]%elem_of_difference. now apply Hne, elem_of_singleton.
    - apply set_eq. intros x. rewrite !elem_of_difference. tauto. }
  unfold run_lighthouse.
  destruct (inv_launch inv) as [text|pid] eqn:El.
  { eexists _, _. split; [reflexivity |]. simpl. repeat split; intros; done. }
  destruct (inv_wait inv) as [after rc stderr|after|after text] eqn:Ew;
    cbn [CHROME_PIDS table].
  - pose proof (kill_chrome_tree_returns pid after) as Hk.
    destruct (kill_chrome_tree pid after) as [[[]|e'] s']; simpl in Hk; [| done].
    destruct (rc =? 0)%Z; [| destruct stderr as [text|message]].
    + eexists _, _. split; [reflexivity |]. split; [done |].
      split; [intros ? [= <-]; apply Hset | intros ? ? _ [=]].
    + eexists _, _. split; [reflexivity |]. split; [done |].
      split; [intros ? [= <-]; apply Hset | intros ? ? _ [=]].
    + destruct (handler_returns u pid (OtherException message)
                  {| CHROME_PIDS := (CHROME_PIDS st ∪ {[pid]}) ∖ {[pid]}; table := s' |})
        as (out & -> & Hu & _).
      eexists _, _. split; [reflexivity |]. split; [exact Hu |].
      split; [intros ? [= <-]; apply Hset2 | intros ? ? _ [=]].
  - destruct (handler_returns u pid SubprocessTimeoutExpired
                {| CHROME_PIDS := CHROME_PIDS st ∪ {[pid]}; table := after |})
      as (out & -> & Hu & Hs & He).
    eexists _, _. split; [reflexivity |]. split; [exact Hu |]. split.
    + intros ? [= <-]. apply Hset.
    + intros ? ? [= <-] [= <-]. split; [| split; [done |]].
      * destruct out as [u' s' e']. simpl in *. now rewrite Hu, Hs, (He eq_refl).
      * apply kill_chrome_tree_reaps.
  - destruct (handler_returns u pid (OtherException text)
                {| CHROME_PIDS := CHROME_PIDS st ∪ {[pid]}; table := after |})
      as (out & -> & Hu & _).
    eexists _, _. split; [reflexivity |]. split; [exact Hu |].
    split; [intros ? [= <-]; apply Hset | intros ? ? _ [=]].
Qed.

Lemma run_lighthouse_unregisters_witness :
  exists out st',
    run_lighthouse hung_audit "https://a.com" idle = (Returned out, st') /\
    out = {| url := "https://a.com"; success := false;
             error := Some "Timeout after 60s" |} /\
    CHROME_PIDS st' = CHROME_PIDS idle ∖ {[7]} /\
    (7 ∉ running (table st')) /\ (8 ∉ running (table st')) /\
    (9 ∉ running (table st')).
Proof.
  destruct (run_lighthouse_unregisters hung_audit "https://a.com" idle)
    as (out & st' & E & _ & Hreg & Htime).
  destruct (Hreg 7 eq_refl) as [_ Hpids].
  destruct (Htime 7 hung_table eq_refl eq_refl) as (Hout & _ & Hroot & Hkids).
  assert (7 ∈ running hung_table) as Hrun
    by (apply (bool_decide_unpack _); vm_compute; exact I).
  exists out, st'. repeat split; auto.
  - apply (Hkids Hrun 8); [repeat constructor | reflexivity].
  - apply (Hkids Hrun 9); [repeat constructor | reflexivity].
Defined.

End AuditFacts.

(** ** More about [normalize_domain] *)

Module NormalizeProps.
Import PyStr PyStrFacts Normalize NormalizeFacts.

Lemma length_lower s : String.length (lower s) = String.length s.
Proof. induction s as [|c s IH]; simpl; [done | now rewrite IH]. Qed.

Lemma length_last_part_split1 sep s :
  String.length (last_part (split1 sep s)) <= String.length s.
Proof.
  unfold split1, last_part, first_part.
  destruct (cut sep s) as [[a b]|] eqn:Hc; simpl; [| lia].
  destruct (cut_Some _ _ _ _ Hc) as [-> _]. rewrite !length_append. lia.
Qed.

Lemma length_first_part_split1 sep s :
  String.length (first_part (split1 sep s)) <= String.length s.
Proof.
  unfold split1, last_part, first_part.
  destruct (cut sep s) as [[a b]|] eqn:Hc; simpl; [| lia].
  destruct (cut_Some _ _ _ _ Hc) as [-> _]. rewrite !length_append. lia.
Qed.

(** X1: on every input made of code points below 256, which are the
    strings of this model, the result of [normalize_domain] contains no
    slash and no colon, is unchanged by lowercasing, and is never longer
    than the input.  (Beyond that range [str.lower] can lengthen a string,
    so the length bound is a fact about these inputs only.) *)
Theorem normalize_domain_shape x :
  mem "/" (normalize_domain x) = false /\
  mem ":" (normalize_domain x) = false /\
  lower (normalize_domain x) = normalize_domain x /\
  String.length (normalize_domain x) <= String.length x.
Proof.
  destruct (normalize_domain_clean x) as (H1 & H2 & H3).
  repeat split; try done. unfold normalize_domain.
  set (d1 := last_part (split1 "//" (strip x))).
  set (d2 := first_part (split1 "/" d1)).
  set (d3 := first_part (split1 ":" d2)).
  pose proof (length_strip x) as L0.
  pose proof (length_last_part_split1 "//" (strip x)) as L1.
  pose proof (length_first_part_split1 "/" d1) as L2.
  pose proof (length_first_part_split1 ":" d2) as L3.
  pose proof (length_lower d3) as L4.
  fold d1 in L1. fold d2 in L2. fold d3 in L3.
  destruct (startswith (lower d3) "www."); [rewrite length_drop |]; lia.
Qed.

(** *** Case does not matter *)

(** A character that [lower_char] neither produces from another one nor
    changes: comparing with it gives the same answer before and after
    lowercasing. *)
Lemma prefix_lower sep s :
  (forall c x, mem c sep = true ->
     (if ascii_dec c (lower_char x) then true else false) =
     (if ascii_dec c x then true else false)) ->
  String.prefix sep (lower s) = String.prefix sep s.
Proof.
  revert s. induction sep as [|c sep IH]; intros s Hr; [now destruct s |].
  destruct s as [|x s]; simpl; [done |].
  assert (mem c (String c sep) = true) as Hc
    by (simpl; now destruct (ascii_dec c c)).
  specialize (Hr c x Hc) as Hcx.
  destruct (ascii_dec c (lower_char x)), (ascii_dec c x); try done.
  apply IH. intros c' x' Hin. apply Hr. simpl.
  destruct (ascii_dec c' c); [done | exact Hin].
Qed.

Lemma cut_lower sep s :
  (forall c x, mem c sep = true ->
     (if ascii_dec c (lower_char x) then true else false) =
     (if ascii_dec c x then true else false)) ->
  cut sep (lower s) =
  match cut sep s with
  | Some (a, b) => Some (lower a, lower b)
  | None => None
  end.
Proof.
  intros Hr. induction s as [|x s IH].
  - rewrite (cut_eq sep ""). change (lower "") with "".
    rewrite (cut_eq sep ""). destruct (String.prefix sep ""); [| done].
    now rewrite lower_drop.
  - rewrite (cut_eq sep (String x s)).
    change (lower (String x s)) with (String (lower_char x) (lower s)).
    rewrite (cut_eq sep (String (lower_char x) (lower s))).
    change (String (lower_char x) (lower s)) with (lower (String x s)).
    rewrite (prefix_lower _ _ Hr).
    destruct (String.prefix sep (String x s)).
    + now rewrite lower_drop.
    + simpl. rewrite IH. now destruct (cut sep s) as [[a b]|].
Qed.

Lemma rigid_slash c x :
  mem c "/" = true ->
  (if ascii_dec c (lower_char x) then true else false) =
  (if ascii_dec c x then true else false).
Proof.
  simpl. destruct (ascii_dec c "/") as [->|]; [| done]. intros _.
  apply slash_lower_char.
Qed.

Lemma rigid_slashes c x :
  mem c "//" = true ->
  (if ascii_dec c (lower_char x) then true else false) =
  (if ascii_dec c x then true else false).
Proof.
  simpl. destruct (ascii_dec c "/") as [->|]; [| done]. intros _.
  apply slash_lower_char.
Qed.

Lemma rigid_colon c x :
  mem c ":" = true ->
  (if ascii_dec c (lower_char x) then true else false) =
  (if ascii_dec c x then true else false).
Proof.
  simpl. destruct (ascii_dec c ":") as [->|]; [| done]. intros _.
  apply colon_lower_char.
Qed.

Lemma last_part_split1_lower sep s :
  (forall c x, mem c sep = true ->
     (if ascii_dec c (lower_char x) then true else false) =
     (if ascii_dec c x then true else false)) ->
  last_part (split1 sep (lower s)) = lower (last_part (split1 sep s)).
Proof.
  intros Hr. unfold split1. rewrite (cut_lower _ _ Hr).
  now destruct (cut sep s) as [[a b]|].
Qed.

Lemma first_part_split1_lower sep s :
  (forall c x, mem c sep = true ->
     (if ascii_dec c (lower_char x) then true else false) =
     (if ascii_dec c x then true else false)) ->
  first_part (split1 sep (lower s)) = lower (first_part (split1 sep s)).
Proof.
  intros Hr. unfold split1. rewrite (cut_lower _ _ Hr).
  now destruct (cut sep s) as [[a b]|].
Qed.

Lemma normalize_domain_lower x : normalize_domain (lower x) = normalize_domain x.
Proof.
  unfold normalize_domain. rewrite <- lower_strip.
  rewrite (last_part_split1_lower "//" _ rigid_slashes).
  rewrite (first_part_split1_lower "/" _ rigid_slash).
  rewrite (first_part_split1_lower ":" _ rigid_colon).
  now rewrite lower_idem.
Qed.

(** X2: on inputs made of code points below 256, which are the strings of
    this model, [normalize_domain] is case-insensitive: two such inputs that
    are equal after lowercasing normalize to the same domain.  (On these
    code points [str.lower] works character by character, so it commutes
    with the cuts at [//], [/] and [:]; a capital sigma, whose lowercase
    depends on its position, lies outside the range.) *)
Theorem normalize_domain_case_insensitive x y :
  lower x = lower y -> normalize_domain x = normalize_domain y.
Proof.
  intros H. rewrite <- (normalize_domain_lower x), <- (normalize_domain_lower y).
  now rewrite H.
Qed.

Lemma normalize_domain_case_insensitive_witness :
  normalize_domain "HTTPS://WWW.Example.COM/Path" =
  normalize_domain "https://www.example.com/path".
Proof. apply normalize_domain_case_insensitive. reflexivity. Defined.

(** *** The anatomy of a URL *)

Lemma lstrip_app_cons a c t :
  is_space c = false -> lstrip (a ++ String c t) = lstrip a ++ String c t.
Proof.
  intros Hc. induction a as [|x a IH]; simpl; [now rewrite Hc |].
  now destruct (is_space x).
Qed.

Lemma rstrip_app_cons a c t :
  is_space c = false -> rstrip (a ++ String c t) = a ++ String c (rstrip t).
Proof.
  intros Hc. induction a as [|x a IH]; simpl.
  - rewrite Hc. now destruct (rstrip t).
  - rewrite IH. now destruct a.
Qed.

Lemma drop_append_length p b : drop (String.length p) (p ++ b) = b.
Proof. induction p as [|x p IH]; simpl; [now destruct b | exact IH]. Qed.

Lemma cut_app_absent c sep a b :
  mem c a = false -> cut (String c sep) (a ++ String c (sep ++ b)) = Some (a, b).
Proof.
  induction a as [|x a IH]; intros Ha.
  - rewrite cut_eq. change ("" ++ String c (sep ++ b)) with (String c sep ++ b).
    now rewrite prefix_append, drop_append_length.
  - simpl in Ha. destruct (ascii_dec c x) as [|Hne]; [done |].
    rewrite cut_eq. simpl. destruct (ascii_dec c x); [done |].
    now rewrite (IH Ha).
Qed.

(** X3: of a URL [scheme//host:port/path] only the host survives:
    [normalize_domain] returns the host, lowercased and without one leading
    [www.], whatever the scheme, the port and the path are (the scheme, the
    host and the port holding no slash and the host no colon). *)
Theorem normalize_domain_url scheme host port path :
  mem "/" scheme = false ->
  mem "/" host = false -> mem ":" host = false ->
  mem "/" port = false ->
  normalize_domain (scheme ++ "//" ++ host ++ ":" ++ port ++ "/" ++ path)
  = strip_www (lower host).
Proof.
  intros Hs Hh Hc Hp.
  assert (strip (scheme ++ "//" ++ host ++ ":" ++ port ++ "/" ++ path)
          = lstrip scheme ++ "//" ++ (host ++ ":" ++ port) ++ "/" ++ rstrip path)
    as Hstrip.
  { unfold strip.
    change (scheme ++ "//" ++ host ++ ":" ++ port ++ "/" ++ path)
      with (scheme ++ String "/" ("/" ++ host ++ ":" ++ port ++ "/" ++ path)).
    rewrite lstrip_app_cons by reflexivity.
    change (lstrip scheme ++ String "/" ("/" ++ host ++ ":" ++ port ++ "/" ++ path))
      with (lstrip scheme ++ "//" ++ host ++ String ":" (port ++ String "/" path)).
    replace (lstrip scheme ++ "//" ++ host ++ String ":" (port ++ String "/" path))
      with ((lstrip scheme ++ "//" ++ host ++ ":" ++ port) ++ String "/" path).
    - rewrite rstrip_app_cons by reflexivity.
      change (String "/" (rstrip path)) with ("/" ++ rstrip path).
      rewrite !append_assoc. reflexivity.
    - rewrite !append_assoc. reflexivity. }
  unfold normalize_domain. rewrite Hstrip.
  unfold split1.
  change (lstrip scheme ++ "//" ++ (host ++ ":" ++ port) ++ "/" ++ rstrip path)
    with (lstrip scheme ++ String "/" ("/" ++ ((host ++ ":" ++ port) ++ "/" ++ rstrip path))).
  rewrite (cut_app_absent "/" "/" _ _ (mem_lstrip _ _ Hs)).
  change (last_part [lstrip scheme; (host ++ ":" ++ port) ++ "/" ++ rstrip path])
    with ((host ++ ":" ++ port) ++ String "/" ("" ++ rstrip path)).
  rewrite (cut_app_absent "/" "" (host ++ ":" ++ port) (rstrip path)).
  - change (first_part [host ++ ":" ++ port; rstrip path])
      with (host ++ String ":" ("" ++ port)).
    rewrite (cut_app_absent ":" "" host port Hc). reflexivity.
  - rewrite mem_append, Hh. simpl. now rewrite Hp.
Qed.

Lemma normalize_domain_url_witness :
  normalize_domain ("ftp:" ++ "//" ++ "WWW.Shop.Example" ++ ":" ++ "8080" ++ "/" ++ "a/b?c=d")
  = "shop.example".
Proof. apply (normalize_domain_url "ftp:" "WWW.Shop.Example" "8080" "a/b?c=d"); reflexivity. Defined.

End NormalizeProps.

(** ** More about [unique_sorted] *)

Module UniqueSortedProps.

(** X4: the result of [unique_sorted] is sorted by code point, holds no
    value twice, and holds exactly the non-empty normalizations of the
    inputs. *)
Theorem unique_sorted_spec domains :
  StronglySorted String.le (unique_sorted domains) /\
  NoDup (unique_sorted domains) /\
  forall x, x ∈ unique_sorted domains <->
            x <> "" /\ exists d, d ∈ domains /\ normalize_domain d = x.
Proof.
  split; [apply unique_sorted_sorted |]. split; [apply unique_sorted_NoDup |].
  apply elem_of_unique_sorted.
Qed.

(** X5: the result depends on the inputs as a set only: neither the order
    of the inputs nor how often one occurs changes it. *)
Theorem unique_sorted_set (l1 l2 : list string) :
  (forall x, x ∈ l1 <-> x ∈ l2) -> unique_sorted l1 = unique_sorted l2.
Proof.
  intros H. unfold unique_sorted. f_equal. f_equal. apply set_eq. intros x.
  rewrite !elem_of_list_to_set, !list_elem_of_filter, !list_elem_of_fmap.
  split; intros [Hne (d & -> & Hd)]; (split; [done |]); exists d;
    (split; [done | now apply H]).
Qed.

Lemma unique_sorted_set_witness :
  unique_sorted ["b.com"; "https://a.com/x"; "b.com"] =
  unique_sorted ["https://a.com/x"; "b.com"].
Proof.
  apply unique_sorted_set. intros x. rewrite !elem_of_cons. tauto.
Defined.

End UniqueSortedProps.

(** ** More about [backoff_delays] *)

Module BackoffProps.
Import Backoff BackoffFacts.
Local Open Scope Q_scope.

Lemma backoff_loop_bounds max_s n cur :
  0 <= cur -> cur <= max_s ->
  Forall (fun d => 0 <= d /\ d <= max_s) (backoff_loop max_s n cur).
Proof.
  revert cur. induction n as [|n IH]; intros cur H0 Hm; simpl; [done |].
  constructor; [done |]. pose proof (Qred_correct (cur * 2)) as Hred.
  destruct (Q.min_spec max_s (Qred (cur * 2))) as [[Hlt Hmin]|[Hge Hmin]];
    apply IH; rewrite Hmin; lra.
Qed.

Lemma backoff_loop_tail_bounds max_s n cur :
  0 <= cur -> 0 <= max_s ->
  Forall (fun d => 0 <= d /\ d <= max_s)
         (backoff_loop max_s n (Qmin max_s (Qred (cur * 2)))).
Proof.
  intros H0 Hm. pose proof (Qred_correct (cur * 2)) as Hred.
  destruct (Q.min_spec max_s (Qred (cur * 2))) as [[Hlt Hmin]|[Hge Hmin]];
    apply backoff_loop_bounds; rewrite Hmin; lra.
Qed.

(** X6: with settings that are not negative no delay is negative, so
    [time.sleep] accepts every one of them; the first delay is [base]
    itself and every later one is at most [max_s]. *)
Theorem backoff_delays_bounds base max_s attempts :
  0 <= base -> 0 <= max_s ->
  (forall d, d ∈ backoff_delays base max_s attempts -> 0 <= d) /\
  (forall d, backoff_delays base max_s attempts !! 0%nat = Some d -> d = base) /\
  (forall k d, backoff_delays base max_s attempts !! S k = Some d -> d <= max_s).
Proof.
  intros Hb Hm. unfold backoff_delays.
  destruct (Z.to_nat (Z.max 0 (attempts - 1))) as [|n]; simpl.
  - repeat split; intros; try done. now apply not_elem_of_nil in H.
  - pose proof (backoff_loop_tail_bounds max_s n base Hb Hm) as Ht.
    rewrite Forall_forall in Ht. repeat split.
    + intros d [-> | Hin]%elem_of_cons; [done | now apply Ht].
    + now intros d [= <-].
    + intros k d Hk. apply Ht. eapply list_elem_of_lookup_2, Hk.
Qed.

Lemma backoff_delays_bounds_witness :
  (forall d, d ∈ backoff_delays 10 2 4 -> 0 <= d) /\
  (forall d, backoff_delays 10 2 4 !! 0%nat = Some d -> d = 10) /\
  (forall k d, backoff_delays 10 2 4 !! S k = Some d -> d <= 2).
Proof. apply backoff_delays_bounds; discriminate. Defined.

(** X7: when [0 <= base <= max_s] the delays never decrease and none
    exceeds [max_s]. *)
Theorem backoff_delays_monotone base max_s attempts :
  0 <= base -> base <= max_s ->
  (forall d, d ∈ backoff_delays base max_s attempts -> d <= max_s) /\
  (forall k d d',
      backoff_delays base max_s attempts !! k = Some d ->
      backoff_delays base max_s attempts !! S k = Some d' ->
      d <= d').
Proof.
  intros Hb Hm. unfold backoff_delays.
  pose proof (backoff_loop_bounds max_s (Z.to_nat (Z.max 0 (attempts - 1))) base Hb Hm)
    as Hall.
  rewrite Forall_forall in Hall. split.
  - intros d Hd. now apply Hall.
  - intros k d d' Hk Hk'.
    pose proof (backoff_loop_step _ _ _ _ _ _ Hk Hk') as Hstep.
    destruct (Hall d) as [H0 H1]; [eapply list_elem_of_lookup_2, Hk |].
    destruct (Q.min_spec max_s (d * 2)) as [[_ Hmin]|[_ Hmin]];
      rewrite Hstep, Hmin; lra.
Qed.

Lemma backoff_delays_monotone_witness :
  (forall d, d ∈ backoff_delays (1#2) 8 6 -> d <= 8) /\
  (forall k d d',
      backoff_delays (1#2) 8 6 !! k = Some d ->
      backoff_delays (1#2) 8 6 !! S k = Some d' ->
      d <= d').
Proof. apply backoff_delays_monotone; discriminate. Defined.

End BackoffProps.

(** ** More about the search providers *)

Module ProviderProps.
Import Backoff BackoffFacts Providers ProvidersFacts.

(** *** What a call hands back *)

Lemma length_py_take {A} (m : Z) (l : list A) : (0 <= m)%Z -> (len (py_take m l) <= m)%Z.
Proof.
  intros Hm. unfold py_take, len. destruct (Z.leb_spec 0 m); [| lia].
  rewrite length_take. lia.
Qed.

Lemma py_take_subseteq {A} (m : Z) (l : list A) x : x ∈ py_take m l -> x ∈ l.
Proof.
  unfold py_take.
  destruct (0 <=? m)%Z; intros H; exact (subseteq_take _ _ _ H).
Qed.

Lemma query_result_form fuel env p w kw m out p' w' :
  query fuel env p w kw m = Some (Returned out, p', w') ->
  out = [] \/ exists results, out = py_take m results.
Proof.
  destruct p as [g|d]; simpl.
  - unfold google_query. destruct (negb (can_continue _)); [intros [= <- <- <-]; auto |].
    destruct (negb (_ && _)); [intros [= <- <- <-]; auto |].
    destruct (google_pages _ _ _ _ _ _ _ _) as [[[res|e] w1]|]; try done.
    intros [= <- <- <-]. eauto.
  - unfold ddg_query. destruct (negb (can_continue _)); [intros [= <- <- <-]; auto |].
    destruct (negb (ddgs_available env)); [intros [= <- <- <-]; auto |].
    destruct (ddg_attempts _ _ _ _ _ _) as [[[res|e] w1]|]; try done.
    intros [= <- <- <-]. eauto.
Qed.

(** X8: a call of [query] with a non-negative [max_results] never returns
    more than [max_results] URLs, whichever provider answers and whatever
    the services send. *)
Theorem query_results_bounded fuel env p w kw m out p' w' :
  (0 <= m)%Z ->
  query fuel env p w kw m = Some (Returned out, p', w') ->
  (len out <= m)%Z.
Proof.
  intros Hm Hq. destruct (query_result_form _ _ _ _ _ _ _ _ _ Hq) as [-> | [res ->]].
  - unfold len. simpl. lia.
  - now apply length_py_take.
Qed.

Lemma query_results_bounded_witness :
  (len ["https://One.com/a"; "https://two.com/b"; "https://One.com/a"] <= 3)%Z.
Proof.
  apply (query_results_bounded 1
           (Tests.mock_http [] (Tests.ok ["https://One.com/a"; "https://two.com/b"]))
           (Google (Tests.google_cfg 2)) world0 "kw" 3
           ["https://One.com/a"; "https://two.com/b"; "https://One.com/a"]
           (Google (g_counted (Tests.google_cfg 2)))
           (requested (requested world0)));
    [discriminate | vm_compute; reflexivity].
Defined.

Lemma py_or_nonempty a b s : py_or a b = Some s -> s <> "".
Proof.
  assert (forall o t, truthy o = Some t -> t <> "") as Ht.
  { intros [t0|] t; simpl; [| done].
    destruct (String.eqb_spec t0 ""); [done |]. now intros [= <-]. }
  unfold py_or. destruct (truthy a) as [t|] eqn:Ea.
  - intros [= <-]. exact (Ht _ _ Ea).
  - apply Ht.
Qed.

Lemma append_links_nonempty results its :
  Forall (fun u => u <> "") results ->
  Forall (fun u => u <> "") (append_links results its).
Proof.
  revert results. induction its as [|[l f|] its IH]; intros results Hr; simpl; try done.
  destruct (py_or l f) as [link|] eqn:E; [| auto].
  apply IH, Forall_app. split; [done |]. constructor; [| done].
  exact (py_or_nonempty _ _ _ E).
Qed.

Lemma append_urls_nonempty results rs :
  Forall (fun u => u <> "") results ->
  Forall (fun u => u <> "") (append_urls results rs).
Proof.
  intros Hr. unfold append_urls. apply Forall_app. split; [done |].
  apply Forall_forall. intros u (r & _ & Hu)%list_elem_of_omap.
  exact (py_or_nonempty _ _ _ Hu).
Qed.

Lemma google_attempts_nonempty fuel env delays attempt results w res w' :
  Forall (fun u => u <> "") results ->
  google_attempts fuel env delays attempt results w = Some (Broke res, w') ->
  Forall (fun u => u <> "") res.
Proof.
  intros Hr. revert attempt w.
  induction fuel as [|fuel IH]; intros attempt w; simpl; [done |].
  destruct (http env (http_calls w)) as [code items| |].
  - destruct (code =? 200)%Z.
    { destruct items; intros [= <- <-]; [now apply append_links_nonempty | done]. }
    destruct ((code =? 429) || (code =? 503))%Z; [| now intros [= <- <-]].
    destruct (_ && _); [| now intros [= <- <-]].
    destruct (time_sleep _ _); [apply IH | now intros [= <- <-]].
  - destruct (_ && _); [| now intros [= <- <-]].
    destruct (time_sleep _ _); [apply IH | done].
  - now intros [= <- <-].
Qed.

Lemma google_pages_nonempty pages fuel env delays m start results w res w' :
  Forall (fun u => u <> "") results ->
  google_pages pages fuel env delays m start results w = Some (Broke res, w') ->
  Forall (fun u => u <> "") res.
Proof.
  revert start results w. induction pages as [|pages IH]; intros start results w Hr; simpl.
  - destruct (_ && _); [done | now intros [= <- <-]].
  - destruct (_ && _); [| now intros [= <- <-]].
    destruct (google_attempts fuel _ _ _ _ _) as [[[r1|e] w1]|] eqn:E; try done.
    apply google_attempts_nonempty in E; [| done].
    destruct (m <=? len r1)%Z; [now intros [= <- <-] | now apply IH].
Qed.

Lemma ddg_attempts_nonempty fuel env delays attempt results w res w' :
  Forall (fun u => u <> "") results ->
  ddg_attempts fuel env delays attempt results w = Some (Broke res, w') ->
  Forall (fun u => u <> "") res.
Proof.
  revert attempt results w.
  induction fuel as [|fuel IH]; intros attempt results w Hr; simpl; [done |].
  pose proof (append_urls_nonempty results
                (yielded (ddgs_text env (ddgs_runs w))) Hr) as Hr'.
  destruct (raises _); [| now intros [= <- <-]].
  destruct (_ <=? _)%Z; [| now intros [= <- <-]].
  destruct (time_sleep _ _); [now apply IH | done].
Qed.

(** X9: no URL that [query] returns is the empty string: entries without a
    usable link are skipped by both providers. *)
Theorem query_results_nonempty fuel env p w kw m out p' w' :
  query fuel env p w kw m = Some (Returned out, p', w') ->
  forall u, u ∈ out -> u <> "".
Proof.
  assert (forall res : list string,
             Forall (fun u => u <> "") res ->
             forall u, u ∈ py_take m res -> u <> "") as Htake.
  { intros res Hres u Hu%py_take_subseteq. rewrite Forall_forall in Hres. auto. }
  destruct p as [g|d]; simpl.
  - unfold google_query.
    destruct (negb (can_continue _));
      [intros [= <- <- <-] u Hu; now apply not_elem_of_nil in Hu |].
    destruct (negb (_ && _));
      [intros [= <- <- <-] u Hu; now apply not_elem_of_nil in Hu |].
    destruct (google_pages _ _ _ _ _ _ _ _) as [[[res|e] w1]|] eqn:E; try done.
    intros [= <- <- <-]. apply Htake.
    exact (google_pages_nonempty _ _ _ _ _ _ _ _ _ _ (Forall_nil_2 _) E).
  - unfold ddg_query.
    destruct (negb (can_continue _));
      [intros [= <- <- <-] u Hu; now apply not_elem_of_nil in Hu |].
    destruct (negb (ddgs_available env));
      [intros [= <- <- <-] u Hu; now apply not_elem_of_nil in Hu |].
    destruct (ddg_attempts _ _ _ _ _ _) as [[[res|e] w1]|] eqn:E; try done.
    intros [= <- <- <-]. apply Htake.
    exact (ddg_attempts_nonempty _ _ _ _ _ _ _ _ (Forall_nil_2 _) E).
Qed.

Lemma query_results_nonempty_witness :
  Forall (fun u => u <> "") ["https://a.com"].
Proof.
  apply Forall_forall.
  apply (query_results_nonempty 1
           (Tests.mock_http [Response 200 (Some [Item (Some "") None;
                                                 Item None (Some "https://a.com");
                                                 Item None None])] OtherError)
           (Google (Tests.google_cfg 2)) world0 "kw" 1
           ["https://a.com"]
           (Google (g_counted (Tests.google_cfg 2)))
           (requested world0)).
  vm_compute. reflexivity.
Defined.

(** *** A provider that cannot search *)




(** *** How often the search dependency is run *)

Lemma len__delays p : len (_delays p) = Z.max 0 (retry_attempts p - 1).
Proof.
  unfold len, _delays, backoff_delays. rewrite length_backoff_loop. lia.
Qed.

Lemma ddg_attempts_runs fuel env delays :
  forall attempt results w e w',
    (0 <= attempt)%Z ->
    ddg_attempts fuel env delays attempt results w = Some (e, w') ->
    http_calls w' = http_calls w /\
    (ddgs_runs w < ddgs_runs w')%nat /\
    (Z.of_nat (ddgs_runs w') <=
       Z.of_nat (ddgs_runs w) + Z.max 1 (len delays - attempt + 1))%Z.
Proof.
  induction fuel as [|fuel IH]; intros attempt results w e w' Ha; simpl; [done |].
  destruct (raises _); [| intros [= <- <-]; simpl; lia].
  destruct (Z.leb_spec (attempt + 1) (len delays)) as [Hle | Hgt];
    [| intros [= <- <-]; simpl; lia].
  destruct (time_sleep _ _) as [w1|] eqn:Es; [| intros [= <- <-]; simpl; lia].
  intros Hrec. apply IH in Hrec; [| lia].
  rewrite (time_sleep_runs _ _ _ Es), (time_sleep_calls _ _ _ Es) in Hrec.
  simpl in Hrec. lia.
Qed.

(** X11: a call of the DuckDuckGo provider always comes back.  It sends no
    HTTP request of its own and runs the search dependency at most
    [max(1, retry_attempts)] times. *)
Theorem ddg_query_runs_bounded env d w kw m :
  exists r d' w',
    ddg_query env d w kw m = Some (r, d', w') /\
    http_calls w' = http_calls w /\
    (Z.of_nat (ddgs_runs w) <= Z.of_nat (ddgs_runs w')
       <= Z.of_nat (ddgs_runs w) + Z.max 1 (retry_attempts (d_base d)))%Z.
Proof.
  destruct (ddg_query_total env d w kw m) as [[[r d'] w'] Hq].
  exists r, d', w'. split; [exact Hq |].
  revert Hq. unfold ddg_query.
  destruct (negb (can_continue _)); [intros [= <- <- <-]; lia |].
  destruct (negb (ddgs_available env)); [intros [= <- <- <-]; lia |].
  assert (http_calls (_respect_ddg_delay d w) = http_calls w /\
          ddgs_runs (_respect_ddg_delay d w) = ddgs_runs w) as [Hh Hr].
  { unfold _respect_ddg_delay. destruct (ddg_crawl_delay d) as [q|]; [| done].
    now destruct (Qlt_le_dec 0 q). }
  destruct (ddg_attempts _ _ _ _ _ _) as [[e w1]|] eqn:E; [| done].
  apply ddg_attempts_runs in E; [| lia].
  rewrite Hh, Hr, len__delays in E.
  destruct e; intros [= <- <- <-]; lia.
Qed.

(** X12: when every run of the search dependency fails and [time.sleep]
    accepts every delay of the provider (the backoff settings and the crawl
    delay lie between 0 and [sleep_limit]), the DuckDuckGo provider runs the
    dependency exactly [max(1, retry_attempts)] times, then gives up
    without raising: it returns what the failed runs had yielded and counts
    the call.  (The sleep of the rate limiter is outside the model, as said
    at [ddg_query]; it is taken to be accepted like the others.) *)
Theorem ddg_query_gives_up env d w kw m :
  can_continue (d_base d) = true ->
  ddgs_available env = true ->
  sleeps_accepted d ->
  (forall i, raises (ddgs_text env (ddgs_runs w + i)) = true) ->
  exists w',
    ddg_query env d w kw m =
      Some (Returned (py_take m (urls_of_runs env (ddgs_runs w)
                                   (Z.to_nat (Z.max 1 (retry_attempts (d_base d)))))),
            d_counted d, w') /\
    ddgs_runs w' = (ddgs_runs w + Z.to_nat (Z.max 1 (retry_attempts (d_base d))))%nat.
Proof.
  intros Hc Ha [Hnn _] Hfail.
  pose proof (_delays_nonneg _ Hnn) as Hd.
  assert (forall n fuel attempt results w0,
             (forall i, raises (ddgs_text env (ddgs_runs w0 + i)) = true) ->
             (0 <= attempt)%Z ->
             (len (_delays (d_base d)) - attempt = Z.of_nat n)%Z ->
             (n < fuel)%nat ->
             exists w',
               ddg_attempts fuel env (_delays (d_base d)) attempt results w0
                 = Some (Broke (results ++ urls_of_runs env (ddgs_runs w0) (S n))%list, w') /\
               ddgs_runs w' = (ddgs_runs w0 + S n)%nat) as Hloop.
  { induction n as [|n IH]; intros fuel attempt results w0 Hf Hat Hn Hfuel;
      (destruct fuel as [|fuel]; [lia |]);
      pose proof (Hf 0%nat) as Hr; rewrite Nat.add_0_r in Hr.
    - exists (searched w0). split; [| simpl; lia].
      cbn [ddg_attempts run_ddgs_text]. rewrite Hr.
      destruct (Z.leb_spec (attempt + 1) (len (_delays (d_base d)))); [lia |].
      unfold urls_of_runs, append_urls. simpl. now rewrite app_nil_r.
    - rewrite (ddg_attempts_backoff _ _ _ _ _ _ Hr);
        [| lia | rewrite Forall_forall in Hd; unfold delay_at;
                 destruct (_ !! _) eqn:El; simpl;
                 [apply Hd; eapply list_elem_of_lookup_2, El | apply Qle_refl]].
      set (w1 := log _ _).
      destruct (IH fuel (attempt + 1)%Z
                  (append_urls results (yielded (ddgs_text env (ddgs_runs w0)))) w1)
        as (w' & -> & Hw'); try lia.
      + intros i. change (ddgs_runs w1) with (S (ddgs_runs w0)).
        replace (S (ddgs_runs w0) + i)%nat with (ddgs_runs w0 + S i)%nat by lia.
        apply Hf.
      + exists w'. split.
        * unfold append_urls. rewrite <- app_assoc. reflexivity.
        * rewrite Hw'. change (ddgs_runs w1) with (S (ddgs_runs w0)). lia. }
  unfold ddg_query. rewrite Hc, Ha. cbn [negb].
  assert (ddgs_runs (_respect_ddg_delay d w) = ddgs_runs w) as Hr.
  { unfold _respect_ddg_delay. destruct (ddg_crawl_delay d) as [q|]; [| done].
    now destruct (Qlt_le_dec 0 q). }
  destruct (Hloop (length (_delays (d_base d))) (S (length (_delays (d_base d))))
              0%Z [] (_respect_ddg_delay d w))
    as (w' & -> & Hw'); try (unfold len; lia).
  { intros i. rewrite Hr. apply Hfail. }
  rewrite Hr in Hw' |- *.
  assert (S (length (_delays (d_base d)))
          = Z.to_nat (Z.max 1 (retry_attempts (d_base d)))) as <-.
  { pose proof (len__delays (d_base d)) as Hl. unfold len in Hl. lia. }
  exists w'. split; [reflexivity | exact Hw'].
Qed.

Lemma ddg_query_gives_up_witness :
  exists w',
    ddg_query (Tests.mock_ddgs [] {| yielded := [{| href := Some "https://x.com/a";
                                                    rlink := None; rurl := None |}];
                                     raises := true |})
      Tests.ddg_cfg world0 "kw" 5
    = Some (Returned ["https://x.com/a"; "https://x.com/a"], d_counted Tests.ddg_cfg, w') /\
    ddgs_runs w' = 2%nat.
Proof.
  apply (ddg_query_gives_up
           (Tests.mock_ddgs [] {| yielded := [{| href := Some "https://x.com/a";
                                                 rlink := None; rurl := None |}];
                                  raises := true |})
           Tests.ddg_cfg world0 "kw" 5);
    [reflexivity | reflexivity | | intros i; reflexivity].
  repeat split; discriminate.
Defined.

(** *** How often the keyed API is asked *)




Lemma google_attempts_once fuel env delays attempt results w :
  len delays = 0%Z \/ settles (http env (http_calls w)) = true ->
  exists e,
    google_attempts (S fuel) env delays attempt results w = Some (e, requested w).
Proof.
  intros Hno. cbn [google_attempts requests_get]. fold (requested w).
  destruct (http env (http_calls w)) as [code items| |] eqn:Eh.
  - destruct (code =? 200)%Z; [destruct items; eauto |].
    destruct ((code =? 429) || (code =? 503))%Z eqn:Er; [| eauto].
    destruct Hno as [Hl | Hs]; [| simpl in Hs; now rewrite Er in Hs].
    destruct (Z.leb_spec 0 (Z.min (attempt + 1 - 1) (len delays - 1))); [lia |].
    cbn [andb]. eauto.
  - destruct Hno as [Hl | Hs]; [| done].
    destruct (Z.leb_spec 0 (Z.min (attempt + 1 - 1) (len delays - 1))); [lia |].
    cbn [andb]. eauto.
  - eauto.
Qed.

Lemma google_pages_requests env delays m fuel pages :
  forall start results w,
    len delays = 0%Z \/
      (forall n, (http_calls w <= n)%nat -> settles (http env n) = true) ->
    (101 - start <= 10 * Z.of_nat pages)%Z ->
    exists e w' k,
      google_pages pages (S fuel) env delays m start results w = Some (e, w') /\
      (10 * Z.of_nat k <= Z.max 0 (110 - start))%Z /\
      http_calls w' = (http_calls w + k)%nat /\
      trace w' = (trace w ++ replicate k Requested)%list.
Proof.
  induction pages as [|pages IH]; intros start results w Hno Hp.
  - cbn [google_pages].
    destruct (Z.leb_spec start 91); [lia |]. rewrite andb_false_r.
    exists (Broke results), w, 0%nat. simpl. rewrite app_nil_r.
    repeat split; try done. lia.
  - cbn [google_pages].
    destruct ((len results <? m) && (start <=? 91))%Z eqn:Ec.
    2:{ exists (Broke results), w, 0%nat. simpl. rewrite app_nil_r.
        repeat split; try done. lia. }
    apply andb_true_iff in Ec as [_ Hs%Z.leb_le].
    destruct (google_attempts_once fuel env delays 0 results w) as [e ->].
    { destruct Hno as [Hl | Hall]; [now left | right; apply Hall; lia]. }
    destruct e as [r1|exn].
    2:{ exists (Escaped exn), (requested w), 1%nat. simpl.
        repeat split; try done; lia. }
    destruct (m <=? len r1)%Z.
    { exists (Broke r1), (requested w), 1%nat. simpl. repeat split; try done; lia. }
    destruct (IH (start + 10)%Z r1 (requested w)) as (e & w' & k & -> & Hk & Hc & Ht).
    { destruct Hno as [Hl | Hall]; [now left | right].
      intros n Hn. apply Hall. simpl in Hn. lia. }
    { lia. }
    exists e, w', (S k). split; [reflexivity |]. split; [lia |]. split.
    + rewrite Hc. simpl. lia.
    + rewrite Ht. simpl. now rewrite <- app_assoc.
Qed.

(** X14: the retries are the only thing that can keep the keyed-API
    provider busy.  When it is configured without retries, or when no
    response asks for one, a call comes back after at most ten requests and
    without having slept for a backoff. *)
Theorem google_query_at_most_ten_requests fuel env g w kw m :
  (retry_attempts (g_base g) <= 1)%Z \/
    (forall n, (http_calls w <= n)%nat -> settles (http env n) = true) ->
  exists r g' w' k,
    google_query (S fuel) env g w kw m = Some (r, g', w') /\
    (k <= 10)%nat /\
    http_calls w' = (http_calls w + k)%nat /\
    trace w' = (trace w ++ replicate k Requested)%list.
Proof.
  intros Hno. unfold google_query.
  destruct (negb (can_continue _)).
  { exists (Returned []), g, w, 0%nat. simpl. rewrite app_nil_r.
    repeat split; try done; lia. }
  destruct (negb (_ && _)).
  { exists (Returned []), (g_counted g), w, 0%nat. simpl. rewrite app_nil_r.
    repeat split; try done; lia. }
  destruct (google_pages_requests env (_delays (g_base g)) m fuel 10 1 [] w)
    as (e & w' & k & -> & Hk & Hc & Ht).
  { destruct Hno as [Hr | Hall]; [left | now right]. rewrite len__delays. lia. }
  { lia. }
  destruct e as [results | exn].
  - exists (Returned (py_take m results)), (g_counted g), w', k.
    repeat split; try done. lia.
  - exists (Raised exn), g, w', k. repeat split; try done. lia.
Qed.

Lemma google_query_at_most_ten_requests_witness :
  exists r g' w' k,
    google_query 1 (Tests.mock_http [] (Response 500 None)) (Tests.google_cfg 2)
      world0 "kw" 25 = Some (r, g', w') /\
    (k <= 10)%nat /\
    http_calls w' = (0 + k)%nat /\
    trace w' = ([] ++ replicate k Requested)%list.
Proof.
  apply (google_query_at_most_ten_requests 0
           (Tests.mock_http [] (Response 500 None)) (Tests.google_cfg 2)
           world0 "kw" 25).
  right. intros n _. reflexivity.
Defined.

End ProviderProps.

(** ** More about [main] of the discovery script *)

Module DiscoverProps.
Import Providers ProvidersFacts Discover DiscoverFacts.

(** *** How a run can end *)

(** X15: once the command line is parsed and the configuration loaded,
    [main] calls [sys.exit] in exactly two cases, both with the outside
    world untouched (nothing has been asked of a search service): with code 2
    when the configuration holds no keyword, with code 3 when it holds
    keywords but no provider is both selected and enabled.  (The exits of
    [argparse] itself, on a bad command line or on [--help], come before
    and are not among these.) *)
Theorem main_exit_codes fuel env a c w code w' :
  main fuel env a c w = Some (Exited code, w') <->
  w' = w /\
  ((code = 2%Z /\ keywords c = []) \/
   (code = 3%Z /\ keywords c <> [] /\ selected a c = [])).
Proof.
  unfold main. destruct (keywords c) as [|kw kws] eqn:Ek.
  { split.
    - intros [= <- <-]. split; [done |]. now left.
    - intros [-> [[-> _] | [_ [Hne _]]]]; [done | now destruct Hne]. }
  destruct (selected a c) as [|prov provs] eqn:Es.
  { split.
    - intros [= <- <-]. split; [done |]. right. done.
    - intros [-> [[_ Hk] | [-> _]]]; [discriminate Hk | done]. }
  split.
  - destruct (each_keyword _ _ _ _ _ _) as [[[st|x] w1]|]; try done.
    destruct (arg_dry_run a); [done |].
    destruct (write_output env _ w1) as [[[]|x] w2]; done.
  - intros [_ [[_ Hk] | [_ [_ Hs]]]]; discriminate.
Qed.

(** X16: with [--dry-run] a run of [main] touches no output: whatever it
    does to the outside world is a request, a search or a sleep, and neither
    the directory is made nor the file written. *)
Theorem main_dry_run_writes_nothing fuel env a c w r w' :
  arg_dry_run a = true ->
  main fuel env a c w = Some (r, w') ->
  discovers w w'.
Proof.
  intros Hdry. unfold main.
  destruct (keywords c) as [|kw kws] eqn:Ek;
    [intros [= <- <-]; apply discovers_refl |].
  destruct (selected a c) as [|prov provs] eqn:Es;
    [intros [= <- <-]; apply discovers_refl |].
  destruct (each_keyword _ _ _ _ _ _) as [[r1 w1]|] eqn:E; [| done].
  apply each_keyword_discovers in E.
  destruct r1 as [st|x]; [| now intros [= <- <-]].
  rewrite Hdry. now intros [= <- <-].
Qed.

Lemma main_dry_run_writes_nothing_witness :
  discovers world0 (requested world0).
Proof.
  apply (main_dry_run_writes_nothing 1 (one_page false)
           {| arg_provider := AllProviders; arg_max_results := 1;
              arg_dry_run := true |}
           one_keyword world0 (Finished ["a.com"]) (requested world0));
    [reflexivity | vm_compute; reflexivity].
Defined.

(** *** What a run collects *)

Lemma each_provider_normalized fuel env kw m todo :
  forall visited domains u w st w',
    set_Forall (fun d => d <> "" /\ exists raw, normalize_domain raw = d) domains ->
    each_provider fuel env kw m todo visited domains u w = Some (Returned st, w') ->
    set_Forall (fun d => d <> "" /\ exists raw, normalize_domain raw = d)
      (all_domains st).
Proof.
  induction todo as [|prov rest IH]; intros visited domains u w st w' Hd; simpl.
  - now intros [= <- <-].
  - destruct (negb (can_continue (base prov))); [now apply IH |].
    destruct (query _ _ _ _ _ _) as [[[[res|x] prov'] w1]|]; try done.
    apply IH. intros d [Hin | Hin%elem_of_list_to_set]%elem_of_union; [now apply Hd |].
    apply elem_of_unique_sorted in Hin as [Hne (raw & _ & Hraw)]. eauto.
Qed.

Lemma each_keyword_normalized fuel env m kws :
  forall st w st' w',
    set_Forall (fun d => d <> "" /\ exists raw, normalize_domain raw = d)
      (all_domains st) ->
    each_keyword fuel env kws m st w = Some (Returned st', w') ->
    set_Forall (fun d => d <> "" /\ exists raw, normalize_domain raw = d)
      (all_domains st').
Proof.
  induction kws as [|kw kws IH]; intros st w st' w' Hd; simpl.
  - now intros [= <- <-].
  - destruct (each_provider _ _ _ _ _ _ _ _ _) as [[[st1|x] w1]|] eqn:E; try done.
    apply each_provider_normalized in E; [| done]. now apply IH.
Qed.

(** X17: the list a finished run of [main] reports is in ascending order,
    without duplicates, and holds only non-empty results of
    [normalize_domain].  Unless it is a dry run, the last two things the run
    does are to make the output directory and to write exactly this list,
    one domain per line. *)
Theorem main_writes_sorted_domains fuel env a c w out w' :
  main fuel env a c w = Some (Finished out, w') ->
  StronglySorted String.le out /\
  NoDup out /\
  (forall d, d ∈ out -> d <> "" /\ exists raw, normalize_domain raw = d) /\
  (arg_dry_run a = false ->
   exists w1, discovers w w1 /\
     w' = log (Wrote ((fun d => d +:+ String "010" "") <$> out)) (log MadeDirs w1)).
Proof.
  unfold main.
  destruct (keywords c) as [|kw kws] eqn:Ek; [done |].
  destruct (selected a c) as [|prov provs] eqn:Es; [done |].
  destruct (each_keyword _ _ _ _ _ _) as [[[st|x] w1]|] eqn:E; try done.
  intros Hmain.
  assert (out = merge_sort String.le (elements (all_domains st)) /\
          (arg_dry_run a = false ->
           w' = log (Wrote ((fun d => d +:+ String "010" "") <$> out))
                  (log MadeDirs w1))) as [-> Hw].
  { destruct (arg_dry_run a); [injection Hmain as <- <-; done |].
    unfold write_output in Hmain.
    destruct (output_writable env); [| done].
    injection Hmain as <- <-. done. }
  split; [apply (StronglySorted_merge_sort _) |].
  split; [rewrite merge_sort_Permutation; apply NoDup_elements |].
  split.
  - intros d Hd. rewrite merge_sort_Permutation, elem_of_elements in Hd.
    revert d Hd. eapply each_keyword_normalized; [| exact E].
    simpl. intros d Hd. now apply elem_of_empty in Hd.
  - intros Hwet. exists w1. split; [| now apply Hw].
    eapply each_keyword_discovers, E.
Qed.

Lemma main_writes_sorted_domains_witness :
  StronglySorted String.le ["a.com"] /\
  NoDup ["a.com"] /\
  (forall d, d ∈ ["a.com"] -> d <> "" /\ exists raw, normalize_domain raw = d) /\
  (arg_dry_run write_one = false ->
   exists w1, discovers world0 w1 /\
     log (Wrote ["a.com" +:+ String "010" ""]) (log MadeDirs (requested world0))
     = log (Wrote ((fun d => d +:+ String "010" "") <$> ["a.com"])) (log MadeDirs w1)).
Proof.
  apply (main_writes_sorted_domains 1 (one_page true) write_one one_keyword world0
           ["a.com"]
           (log (Wrote ["a.com" +:+ String "010" ""])
              (log MadeDirs (requested world0)))).
  vm_compute. reflexivity.
Defined.

End DiscoverProps.

(** ** Output names and the domain list of the audit runner *)

Module RunnerProps.
Import PyStr PyStrFacts Runner.

(** *** The output name of an audit *)

Lemma length_replace_from_empty old s :
  forall skip, String.length (replace_from old "" skip s) <= String.length s.
Proof.
  induction s as [|c s IH]; intros skip; cbn [replace_from String.length]; [lia |].
  destruct skip as [|k]; [| specialize (IH k); lia].
  destruct (startswith (String c s) old); cbn [String.append String.length].
  - specialize (IH (String.length old - 1)). lia.
  - specialize (IH 0). lia.
Qed.

Lemma length_join_map f s : String.length (join_map f s) = String.length s.
Proof. induction s as [|c s IH]; simpl; [done | now rewrite IH]. Qed.

Lemma slug_char_safe c : is_alnum (slug_char c) || mem (slug_char c) "._-" = true.
Proof.
  unfold slug_char. destruct (is_alnum c || mem c "._-") eqn:E; [exact E | reflexivity].
Qed.

Lemma mem_join_map_slug_char c s :
  mem c (join_map slug_char s) = true -> is_alnum c || mem c "._-" = true.
Proof.
  induction s as [|x s IH]; simpl; [done |].
  destruct (ascii_dec c (slug_char x)) as [-> | _]; [| exact IH].
  intros _. apply slug_char_safe.
Qed.

(** X19: the name under which an audit is stored is made of letters,
    digits, dots, underscores and hyphens only.  It holds no slash, so the
    output stays inside the output directory, and it is no longer than the
    URL. *)
Theorem slug_is_a_file_name url :
  (forall c, mem c (slug url) = true ->
             is_alnum c = true \/ c = "."%char \/ c = "_"%char \/ c = "-"%char) /\
  mem "/" (slug url) = false /\
  String.length (slug url) <= String.length url.
Proof.
  split; [| split].
  - intros c Hc. apply mem_join_map_slug_char in Hc.
    apply orb_true_iff in Hc as [Ha | Hm]; [now left | right].
    simpl in Hm.
    destruct (ascii_dec c "."); [now left |].
    destruct (ascii_dec c "_"); [now right; left |].
    destruct (ascii_dec c "-"); [now right; right | done].
  - destruct (mem "/" (slug url)) eqn:E; [| done].
    apply mem_join_map_slug_char in E. discriminate E.
  - unfold slug, replace. rewrite length_join_map.
    etrans; [apply length_replace_from_empty |]. apply length_replace_from_empty.
Qed.

Lemma replace_from_skip old new a d :
  replace_from old new (String.length a) (a ++ d) = replace_from old new 0 d.
Proof.
  induction a as [|c a IH]; simpl; [| exact IH].
  destruct d; reflexivity.
Qed.

Lemma replace_prefix c old new d :
  replace (String c old ++ d) (String c old) new = new ++ replace d (String c old) new.
Proof.
  unfold replace.
  change (String c old ++ d) with (String c (old ++ d)).
  cbn [replace_from]. unfold startswith.
  change (String c (old ++ d)) with (String c old ++ d).
  rewrite prefix_append.
  replace (String.length (String c old) - 1) with (String.length old)
    by (cbn [String.length]; lia).
  now rewrite replace_from_skip.
Qed.

Lemma replace_from_nomatch old new c s :
  startswith (String c s) old = false ->
  replace_from old new 0 (String c s) = String c (replace_from old new 0 s).
Proof. intros H. cbn [replace_from]. now rewrite H. Qed.

Lemma replace_https_of_http d :
  replace ("http://" ++ d) "https://" "" = "http://" ++ replace d "https://" "".
Proof.
  unfold replace.
  change ("http://" ++ d)
    with (String "h" (String "t" (String "t" (String "p"
            (String ":" (String "/" (String "/" d))))))).
  rewrite !replace_from_nomatch by reflexivity. reflexivity.
Qed.

(** X20: the output name does not tell the scheme: the audits of
    [https://d] and of [http://d] are stored under the name of [d] itself.
    In particular the name of the URL that [main] makes of a line of the
    domain list is the name of that line. *)
Theorem slug_ignores_scheme d :
  slug ("https://" ++ d) = slug d /\
  slug ("http://" ++ d) = slug d /\
  slug (to_url d) = slug d.
Proof.
  assert (slug ("https://" ++ d) = slug d) as Hs.
  { unfold slug. now rewrite (replace_prefix "h" "ttps://" "" d). }
  split; [exact Hs |]. split.
  - unfold slug. rewrite replace_https_of_http.
    now rewrite (replace_prefix "h" "ttp://" "" (replace d "https://" "")).
  - unfold to_url. destruct (startswith d "http"); [reflexivity | exact Hs].
Qed.

(** *** The domain list *)

Lemma rstrip_cons c s :
  rstrip (String c s) =
  match rstrip s with
  | "" => if is_space c then "" else String c ""
  | String a r => String c (String a r)
  end.
Proof. reflexivity. Qed.

Lemma rstrip_idem s : rstrip (rstrip s) = rstrip s.
Proof.
  induction s as [|c s IH]; [done |].
  rewrite rstrip_cons. destruct (rstrip s) as [|r0 r] eqn:Er.
  - destruct (is_space c) eqn:Ec; [done |].
    rewrite rstrip_cons. cbn [rstrip]. now rewrite Ec.
  - rewrite rstrip_cons, IH. reflexivity.
Qed.

Lemma lstrip_rstrip_lstrip s : lstrip (rstrip (lstrip s)) = rstrip (lstrip s).
Proof.
  induction s as [|c s IH]; [done |].
  cbn [lstrip]. destruct (is_space c) eqn:Ec; [exact IH |].
  rewrite rstrip_cons.
  destruct (rstrip s); [rewrite Ec |]; cbn [lstrip]; now rewrite Ec.
Qed.

Lemma strip_idem s : strip (strip s) = strip s.
Proof.
  unfold strip. rewrite lstrip_rstrip_lstrip. apply rstrip_idem.
Qed.

Lemma strip_scheme d :
  d <> "" -> strip d = d -> strip ("https://" ++ d) = "https://" ++ d.
Proof.
  intros Hne Hd.
  assert (lstrip d = d /\ rstrip d = d) as [Hl Hr].
  { pose proof (length_lstrip d) as L1. pose proof (length_rstrip (lstrip d)) as L2.
    unfold strip in Hd. rewrite Hd in L2.
    assert (lstrip d = d) as Hl by (apply lstrip_fixed; lia).
    split; [exact Hl |]. now rewrite Hl in Hd. }
  destruct d as [|c t]; [done |].
  assert (is_space c = false) as Hc.
  { simpl in Hl. destruct (is_space c) eqn:Ec; [| done].
    pose proof (length_lstrip t) as L. rewrite Hl in L. simpl in L. lia. }
  unfold strip.
  change (lstrip ("https://" ++ String c t)) with ("https://" ++ String c t).
  rewrite (NormalizeProps.rstrip_app_cons "https://" c t Hc).
  f_equal. simpl in Hr. destruct (rstrip t) as [|r0 r] eqn:Er.
  - rewrite Hc in Hr. now injection Hr as <-.
  - now injection Hr as <-.
Qed.

(** X21: every URL that [main] of the runner makes of the domain list
    starts with [http], is not empty and carries no white space at either
    end, whatever the lines of the file are; there is one URL per line that
    is kept. *)
Theorem urls_well_formed lines :
  length (urls lines) = length (domains lines) /\
  forall u, u ∈ urls lines ->
    startswith u "http" = true /\ u <> "" /\ strip u = u.
Proof.
  split; [unfold urls; apply length_fmap |].
  intros u (d & -> & Hd)%list_elem_of_fmap.
  unfold domains in Hd. apply list_elem_of_fmap in Hd as (line & -> & Hl).
  apply list_elem_of_In, filter_In in Hl as [_ Hkeep].
  apply andb_true_iff in Hkeep as [Hne _].
  apply negb_true_iff, String.eqb_neq in Hne.
  unfold to_url. destruct (startswith (strip line) "http") eqn:Eh.
  - split; [exact Eh |]. split; [exact Hne | apply strip_idem].
  - split; [reflexivity |]. split; [discriminate |].
    apply strip_scheme; [exact Hne | apply strip_idem].
Qed.

End RunnerProps.

(** ** More about the process cleanup of the audit runner *)

Module AuditProps.
Import Providers Audit AuditFacts.

(** *** What [kill_chrome_tree] leaves alone *)

Lemma send_keeps lethal p s q :
  q ∈ running s -> protected s q = true \/ q <> p ->
  q ∈ running (snd (send lethal p s)).
Proof.
  intros Hq Hsafe. unfold send. destruct (decide (p ∈ running s)); [| done].
  destruct (protected s p) eqn:Hp; [done |].
  destruct (lethal || heeds_terminate s p); [| done]. simpl.
  apply elem_of_difference. split; [done |]. intros Heq%elem_of_singleton.
  subst q. destruct Hsafe as [Hprot | Hne]; [congruence | done].
Qed.

Lemma each_ignoring_keeps lethal procs :
  forall s q,
    q ∈ running s -> protected s q = true \/ q ∉ procs ->
    q ∈ running (each_ignoring (send lethal) procs s).
Proof.
  induction procs as [|p procs IH]; intros s q Hq Hsafe; [done |].
  unfold each_ignoring in *. simpl.
  destruct (send_fields lethal p s) as (_ & _ & Hprot & _).
  apply IH.
  - apply send_keeps; [done |].
    destruct Hsafe as [Hp | Hn]; [now left | right].
    intros ->. apply Hn. now left.
  - rewrite Hprot. destruct Hsafe as [Hp | Hn]; [now left | right].
    intros Hin. apply Hn. now right.
Qed.

Lemma kill_chrome_tree_keeps p s q :
  q ∈ running s ->
  protected s q = true \/ (q <> p /\ q ∉ children_of s p) ->
  q ∈ running (snd (kill_chrome_tree p s)).
Proof.
  intros Hq Hsafe. unfold kill_chrome_tree, psutil_Process, terminate, kill.
  destruct (decide (p ∈ running s)); [| done]. simpl.
  set (kids := filter (fun c => c ∈ running s) (children_of s p)).
  set (s1 := each_ignoring (send false) kids s).
  set (s2 := each_ignoring (send true) (filter (fun c => c ∈ running s1) kids) s1).
  destruct (each_ignoring_fields false kids s) as (_ & _ & E3 & _).
  destruct (each_ignoring_fields true (filter (fun c => c ∈ running s1) kids) s1)
    as (_ & _ & F3 & _).
  fold s1 in E3. fold s2 in F3.
  assert (protected s q = true \/ q ∉ kids) as Hkids.
  { destruct Hsafe as [Hp | [_ Hn]]; [now left | right].
    intros [_ Hin]%list_elem_of_filter. now apply Hn. }
  assert (q ∈ running s1) as H1 by now apply each_ignoring_keeps.
  assert (q ∈ running s2) as H2.
  { apply each_ignoring_keeps; [done |]. rewrite E3.
    destruct Hkids as [Hp | Hn]; [now left | right].
    intros [_ Hin]%list_elem_of_filter. now apply Hn. }
  assert (protected s2 q = true \/ q <> p) as Hroot.
  { rewrite F3, E3. destruct Hsafe as [Hp | [Hne _]]; auto. }
  pose proof (send_keeps false p s2 q H2 Hroot) as H3.
  destruct (send_fields false p s2) as (_ & _ & G3 & _).
  destruct (send false p s2) as [[[]|err] s3] eqn:E; simpl in *.
  - unfold proc_wait. destruct (decide (p ∈ running s3)); simpl; [| done].
    apply send_keeps; [done |]. now rewrite G3.
  - now destruct err.
Qed.

Lemma kill_chrome_tree_gone p s : p ∉ running s -> kill_chrome_tree p s = (Ok tt, s).
Proof.
  intros Hp. unfold kill_chrome_tree, psutil_Process.
  now destruct (decide (p ∈ running s)).
Qed.

(** X22: [kill_chrome_tree] never raises and is confined to the tree it is
    given: it starts no process, it leaves every process running that is
    neither the root nor one of its descendants, it cannot remove a process
    that refuses signals, and when the root itself no longer exists it
    changes nothing at all, not even the root's descendants. *)
Theorem kill_chrome_tree_confined p s :
  fst (kill_chrome_tree p s) = Ok tt /\
  running (snd (kill_chrome_tree p s)) ⊆ running s /\
  (forall q, q ∈ running s ->
             protected s q = true \/ (q <> p /\ q ∉ children_of s p) ->
             q ∈ running (snd (kill_chrome_tree p s))) /\
  (p ∉ running s -> snd (kill_chrome_tree p s) = s).
Proof.
  split; [apply kill_chrome_tree_returns |].
  split; [apply kill_chrome_tree_fields |].
  split; [intros q; apply kill_chrome_tree_keeps |].
  intros Hp. now rewrite kill_chrome_tree_gone.
Qed.

(** X23: when the root exists and neither it nor any of its descendants
    refuses signals, [kill_chrome_tree] removes exactly the tree: afterwards
    the running processes are those that ran before and are neither the
    root nor one of its descendants. *)
Theorem kill_chrome_tree_removes_the_tree p s :
  p ∈ running s ->
  (forall q, q = p \/ q ∈ children_of s p -> protected s q = false) ->
  forall q, q ∈ running (snd (kill_chrome_tree p s)) <->
            q ∈ running s /\ q <> p /\ q ∉ children_of s p.
Proof.
  intros Hp Hfree q. split.
  - intros Hq. destruct (kill_chrome_tree_fields p s) as (_ & _ & _ & Hsub).
    destruct (kill_chrome_tree_reaps p s) as [Hroot Hkids].
    split; [apply Hsub, Hq |]. split.
    + intros ->. apply Hroot; [| exact Hq]. apply Hfree. now left.
    + intros Hc. apply (Hkids Hp q Hc); [| exact Hq]. apply Hfree. now right.
  - intros (Hq & Hne & Hc). apply kill_chrome_tree_keeps; auto.
Qed.

Lemma kill_chrome_tree_removes_the_tree_witness :
  7 ∈ running hung_table /\
  forall q, q ∈ running (snd (kill_chrome_tree 7 hung_table)) <->
            q ∈ running hung_table /\ q <> 7 /\ q ∉ children_of hung_table 7.
Proof.
  split; [vm_compute; reflexivity |].
  apply (kill_chrome_tree_removes_the_tree 7 hung_table);
    [vm_compute; reflexivity | intros q _; reflexivity].
Defined.

(** *** An audit that ends by itself *)

(** X24: when the audit process has ended by itself and is gone from the
    process table by the time [communicate] returns, [run_lighthouse]
    signals nothing: the process table is left as [communicate] left it,
    browser processes that outlived the audit included. *)
Theorem run_lighthouse_leaves_survivors inv u st pid after returncode stderr :
  inv_launch inv = Launched pid ->
  inv_wait inv = Exits after returncode stderr ->
  pid ∉ running after ->
  table (snd (run_lighthouse inv u st)) = after.
Proof.
  intros Hl Hw Hgone. unfold run_lighthouse. rewrite Hl, Hw.
  rewrite (kill_chrome_tree_gone pid after Hgone).
  destruct (returncode =? 0)%Z; [reflexivity |].
  destruct stderr as [text | message]; [reflexivity |].
  unfold handler. cbn [table]. now rewrite (kill_chrome_tree_gone pid after Hgone).
Qed.

Lemma run_lighthouse_leaves_survivors_witness :
  table (snd (run_lighthouse
                {| inv_launch := Launched 7;
                   inv_wait := Exits (set_running {[8; 9]} hung_table) 0 (inl "") |}
                "https://a.com" idle))
  = set_running {[8; 9]} hung_table.
Proof.
  apply (run_lighthouse_leaves_survivors
           {| inv_launch := Launched 7;
              inv_wait := Exits (set_running {[8; 9]} hung_table) 0 (inl "") |}
           "https://a.com" idle 7 (set_running {[8; 9]} hung_table) 0 (inl ""));
    [reflexivity | reflexivity | vm_compute; intros H; discriminate H].
Defined.

(** *** The sweep of the registry *)

Lemma sweep_keeps pids :
  forall s q,
    q ∈ running s ->
    protected s q = true \/
      (forall pid, pid ∈ pids -> q <> pid /\ q ∉ children_of s pid) ->
    q ∈ running (foldl (fun s pid => snd (kill_chrome_tree pid s)) s pids).
Proof.
  induction pids as [|p pids IH]; intros s q Hq Hsafe; [done |]. simpl.
  destruct (kill_chrome_tree_fields p s) as (Hc & _ & Hprot & _).
  apply IH.
  - apply kill_chrome_tree_keeps; [done |].
    destruct Hsafe as [Hp | Hn]; [now left | right]. apply Hn. now left.
  - rewrite Hprot, Hc. destruct Hsafe as [Hp | Hn]; [now left | right].
    intros pid Hpid. apply Hn. now right.
Qed.

(** X25: [cleanup_all_chrome] empties the registry and removes every
    registered process that may be signalled.  It starts no process, leaves
    alone whatever is neither registered nor a descendant of a registered
    process, and running it a second time changes nothing. *)
Theorem cleanup_all_chrome_sweeps st :
  CHROME_PIDS (cleanup_all_chrome st) = ∅ /\
  running (table (cleanup_all_chrome st)) ⊆ running (table st) /\
  (forall pid, pid ∈ CHROME_PIDS st -> protected (table st) pid = false ->
               pid ∉ running (table (cleanup_all_chrome st))) /\
  (forall q, q ∈ running (table st) ->
             (forall pid, pid ∈ CHROME_PIDS st ->
                          q <> pid /\ q ∉ children_of (table st) pid) ->
             q ∈ running (table (cleanup_all_chrome st))) /\
  cleanup_all_chrome (cleanup_all_chrome st) = cleanup_all_chrome st.
Proof.
  split; [reflexivity |].
  split; [apply sweep_fields |].
  split; [| split].
  - intros pid Hpid Hp. apply sweep_reaps; [| done]. now apply elem_of_elements.
  - intros q Hq Hout. apply sweep_keeps; [done |]. right.
    intros pid Hpid%elem_of_elements. now apply Hout.
  - unfold cleanup_all_chrome. cbn [CHROME_PIDS table].
    rewrite elements_empty. reflexivity.
Qed.

(** *** What an audit reports *)

Lemma length_first_200 text : String.length (first_200 text) <= 200.
Proof.
  unfold first_200. generalize 200. intros m. revert text.
  induction m as [|m IH]; intros [|c text]; simpl; try lia.
  specialize (IH text). lia.
Qed.

Lemma handler_reports u pid e st :
  exists out st' text,
    handler u pid e st = (Returned out, st') /\
    success out = false /\ error out = Some text /\ String.length text <= 200.
Proof.
  unfold handler. pose proof (kill_chrome_tree_returns pid (table st)) as Hk.
  destruct (kill_chrome_tree pid (table st)) as [[[]|err] s'];
    [| discriminate Hk].
  eexists _, _, _. split; [reflexivity |]. split; [reflexivity |].
  split; [reflexivity |].
  destruct e; [simpl; lia | apply length_first_200].
Qed.

(** The report of the [except] clauses. *)
Ltac failed_audit :=
  match goal with
  | |- context [handler ?u ?pid ?e ?st] =>
      let out := fresh "out" in
      let st' := fresh "st'" in
      let msg := fresh "msg" in
      let Hs := fresh "Hs" in
      let He := fresh "He" in
      let Hlen := fresh "Hlen" in
      destruct (handler_reports u pid e st) as (out & st' & msg & -> & Hs & He & Hlen);
      exists out, st'; split; [reflexivity |]; rewrite Hs, He
  end.

(** X26: [run_lighthouse] always returns a record, and the record is
    consistent: it reports success exactly when the audit process was
    started and ended by itself with exit code 0, a success carries no error
    text, and every failure carries one of at most 200 characters. *)
Theorem run_lighthouse_outcome inv u st :
  exists out st',
    run_lighthouse inv u st = (Returned out, st') /\
    (success out = true <->
     exists pid after stderr,
       inv_launch inv = Launched pid /\ inv_wait inv = Exits after 0 stderr) /\
    (success out = true -> error out = None) /\
    (success out = false ->
     exists text, error out = Some text /\ String.length text <= 200).
Proof.
  unfold run_lighthouse.
  destruct (inv_launch inv) as [text | pid].
  { eexists _, _. split; [reflexivity |]. cbn [success error]. repeat split.
    - done.
    - now intros (? & ? & ? & ? & _).
    - done.
    - intros _. eexists. split; [reflexivity | apply length_first_200]. }
  destruct (inv_wait inv) as [after rc stderr | after | after text] eqn:Ew.
  - pose proof (kill_chrome_tree_returns pid after) as Hk.
    destruct (kill_chrome_tree pid after) as [[[]|err] s]; [| discriminate Hk].
    destruct (Z.eqb_spec rc 0) as [-> | Hrc].
    + eexists _, _. split; [reflexivity |]. cbn [success error]. repeat split.
      * intros _. eauto.
      * done.
    + destruct stderr as [text | message].
      * eexists _, _. split; [reflexivity |]. cbn [success error]. repeat split.
        -- done.
        -- intros (? & ? & ? & _ & [= _ Hz _]). now destruct Hrc.
        -- done.
        -- intros _. eexists. split; [reflexivity | apply length_first_200].
      * failed_audit. repeat split.
        -- done.
        -- intros (? & ? & ? & _ & [= _ Hz _]). now destruct Hrc.
        -- done.
        -- intros _. eauto.
  - failed_audit. repeat split.
    + done.
    + now intros (? & ? & ? & _ & ?).
    + done.
    + intros _. eauto.
  - failed_audit. repeat split.
    + done.
    + now intros (? & ? & ? & _ & ?).
    + done.
    + intros _. eauto.
Qed.

End AuditProps.
